(** * ratelimiter: a shallow embedding of [methods.go]

    The limiter keeps one [UserStatus] per chat (or user) id in a map guarded
    by a read/write mutex, and a background [checker] evicts stale entries.
    This development embeds the methods of [methods.go] as functions over an
    explicit limiter state and proves the properties of the flood-control
    bookkeeping: eviction eligibility, custom overrides, the cache interval,
    the id lists, and the behaviour around [Stop]. *)

From Stdlib Require Import ZArith Bool List Lia String.
From stdpp Require Import base option list gmap.

Local Open Scope Z_scope.

(** ** Go values used by the limiter *)

(** [time.Duration] is an [int64] count of nanoseconds; [+] wraps around. *)
Module Duration.

Definition t : Type := Z.

Definition minDuration : t := - 2 ^ 63.
Definition maxDuration : t := 2 ^ 63 - 1.

Definition inRange (d : Z) : Prop := minDuration <= d <= maxDuration.

(** Two's-complement wrap-around of an [int64] result. *)
Definition wrap (z : Z) : t := (z + 2 ^ 63) mod 2 ^ 64 - 2 ^ 63.

Definition add (a b : t) : t := wrap (a + b).

Definition Nanosecond : t := 1.
Definition Microsecond : t := 1000 * Nanosecond.
Definition Millisecond : t := 1000 * Microsecond.
Definition Second : t := 1000 * Millisecond.
Definition Minute : t := 60 * Second.

(** [seconds n] is the duration [n * time.Second]. *)
Definition seconds (n : Z) : t := wrap (n * Second).

End Duration.

(** [time.Time] as the number of nanoseconds elapsed since the zero instant
    (January 1, year 1, 00:00:00 UTC), which is the value [IsZero] tests for.
    [Sub] saturates at the smallest and largest [Duration], as [Time.Sub]
    does.  The clock reading [now] is passed explicitly wherever the source
    calls [time.Now] or [time.Since]. *)
Module Time.

Definition t : Type := Z.

Definition zero : t := 0.

Definition IsZero (u : t) : bool := u =? 0.

Definition Sub (a b : t) : Duration.t :=
  if a - b <? Duration.minDuration then Duration.minDuration
  else if Duration.maxDuration <? a - b then Duration.maxDuration
  else a - b.

Definition Since (now u : t) : Duration.t := Sub now u.

End Time.

(** ** Per-identity status *)

Record customIgnore : Type := mkCustomIgnore {
  startTime : Time.t;
  duration : Duration.t;
  ignoreException : bool
}.

(** Modelled from the spec: the declaration of [UserStatus] is not in
    [methods.go]; the fields are the ones the methods read and write
    ([Last], [limited], [custom]) together with the window counter [count]
    of the specification's data model. *)
Record UserStatus : Type := mkUserStatus {
  Last : Time.t;
  limited : bool;
  count : Z;
  custom : option customIgnore
}.

(** [new(UserStatus)]: every field at its zero value. *)
Definition newUserStatus : UserStatus :=
  {| Last := Time.zero; limited := false; count := 0; custom := None |}.

Definition setCustom (c : option customIgnore) (s : UserStatus) : UserStatus :=
  {| Last := Last s; limited := limited s; count := count s; custom := c |}.

Definition IsLimited (s : UserStatus) : bool := limited s.

(** [IsCustomLimited] may clear [s.custom]; the status after the call is
    returned next to the result. *)
Definition IsCustomLimited (now : Time.t) (s : UserStatus) : bool * UserStatus :=
  match custom s with
  | None => (false, s)
  | Some c =>
      if (duration c <? Time.Since now (startTime c)) && negb (duration c =? 0)
      then (false, setCustom None s)
      else (true, s)
  end.

(** ** Run-time faults and the registry lock *)

Inductive RuntimeError : Type :=
| NilPointerDereference
| AssignmentToNilMap.

(** The outcome of a method call: a value, or the run-time panic that
    aborted the call. *)
Inductive Result (A : Type) : Type :=
| Ok (a : A)
| Panic (e : RuntimeError).

Arguments Ok {A} a.
Arguments Panic {A} e.

Definition bindResult {A B : Type} (r : Result A) (k : A -> Result B) : Result B :=
  match r with
  | Ok a => k a
  | Panic e => Panic e
  end.

(** The instances give [Result] stdpp's monad notations [x ← r; k] and
    [r;; k]. *)
#[global] Instance Result_ret : MRet Result := fun A a => Ok a.
#[global] Instance Result_bind : MBind Result := fun A B k r => bindResult r k.

Definition returnsQuietly {A : Type} (r : Result A) : Prop :=
  match r with
  | Ok _ => True
  | Panic _ => False
  end.

(** [new(sync.RWMutex)]: an unlocked mutex.  Every method releases the lock
    before it returns, so in this sequential embedding a mutex is either
    allocated or nil; contention is outside the model. *)
Inductive RWMutex : Type := newRWMutex.

(** Calling a lock method through a nil [*sync.RWMutex] dereferences nil. *)
Definition withMutex (mu : option RWMutex) : Result unit :=
  match mu with
  | Some _ => Ok tt
  | None => Panic NilPointerDereference
  end.

Definition Lock := withMutex.
Definition Unlock := withMutex.
Definition RLock := withMutex.
Definition RUnlock := withMutex.

(** ** Telegram values read by the exception checks *)

Module User.
Record t : Type := mk { Id : Z }.
End User.

Module Chat.
Record t : Type := mk { Id : Z }.
End Chat.

Module Message.
Record t : Type := mk {
  From : option User.t;
  Chat : Chat.t;
  Text : string
}.
Definition GetChat (m : t) : Chat.t := Chat m.
End Message.

Module CallbackQuery.
Record t : Type := mk {
  From : User.t;
  Message : option Message.t
}.
End CallbackQuery.

Module Context.
Record t : Type := mk {
  CallbackQuery : option CallbackQuery.t;
  Message : option Message.t
}.
End Context.

(** [filters.Message]: a predicate over a message. *)
Definition MessageFilter : Type := Message.t -> bool.

(** [handlers.Message], of which the limiter reads two flags. *)
Record MessageHandler : Type := mkMessageHandler {
  AllowChannel : bool;
  AllowEdited : bool
}.

(** ** Counting the id comparisons of a linear scan

    A scan result carries the number of [ex == id] comparisons that were
    evaluated, so that "no membership test was evaluated" can be stated. *)
Definition Scan : Type := (bool * nat)%type.

Definition sameID (a b : Z) : Scan := (a =? b, 1%nat).

(** Short-circuit [||]: the right operand is evaluated only when the left
    one is false. *)
Definition orElse (x y : Scan) : Scan :=
  if fst x then (true, snd x) else (fst y, (snd x + snd y)%nat).

(** [for _, ex := range ids { if test(ex) { return true } }; return false] *)
Fixpoint rangeUntil (test : Z -> Scan) (ids : list Z) : Scan :=
  match ids with
  | [] => (false, 0%nat)
  | ex :: rest =>
      if fst (test ex) then (true, snd (test ex))
      else (fst (rangeUntil test rest), (snd (test ex) + snd (rangeUntil test rest))%nat)
  end.

(** ** The limiter *)

Section Limiter.

(** [handlers.Response]: a trigger callback.  The limiter only stores and
    later invokes triggers, so their type is left abstract. *)
Context {Response : Type}.

(** Modelled from the spec: the declaration of [Limiter] is not in
    [methods.go]; the fields are the ones its methods read and write.  A
    nil mutex or map is [None]; a map entry holding a nil [*UserStatus] is
    [Some None]. *)
Record Limiter : Type := mkLimiter {
  mutex : option RWMutex;
  userMap : option (gmap Z (option UserStatus));
  isEnabled : bool;
  isStopped : bool;
  timeout : Duration.t;
  punishment : Duration.t;
  maxCount : Z;
  maxTimeout : Duration.t;
  TextOnly : bool;
  msgHandler : option MessageHandler;
  exceptionIDs : list Z;
  ignoredExceptions : list Z;
  conditions : list MessageFilter;
  exceptions : list MessageFilter;
  triggers : list (option Response)
}.

(** Field assignments [l.f = v]. *)
Definition setMutex (v : option RWMutex) (l : Limiter) : Limiter :=
  mkLimiter v (userMap l) (isEnabled l) (isStopped l) (timeout l)
    (punishment l) (maxCount l) (maxTimeout l) (TextOnly l) (msgHandler l)
    (exceptionIDs l) (ignoredExceptions l) (conditions l) (exceptions l)
    (triggers l).

Definition setUserMap (v : option (gmap Z (option UserStatus))) (l : Limiter) : Limiter :=
  mkLimiter (mutex l) v (isEnabled l) (isStopped l) (timeout l)
    (punishment l) (maxCount l) (maxTimeout l) (TextOnly l) (msgHandler l)
    (exceptionIDs l) (ignoredExceptions l) (conditions l) (exceptions l)
    (triggers l).

Definition setIsEnabled (v : bool) (l : Limiter) : Limiter :=
  mkLimiter (mutex l) (userMap l) v (isStopped l) (timeout l)
    (punishment l) (maxCount l) (maxTimeout l) (TextOnly l) (msgHandler l)
    (exceptionIDs l) (ignoredExceptions l) (conditions l) (exceptions l)
    (triggers l).

Definition setIsStopped (v : bool) (l : Limiter) : Limiter :=
  mkLimiter (mutex l) (userMap l) (isEnabled l) v (timeout l)
    (punishment l) (maxCount l) (maxTimeout l) (TextOnly l) (msgHandler l)
    (exceptionIDs l) (ignoredExceptions l) (conditions l) (exceptions l)
    (triggers l).

Definition setTimeout (v : Duration.t) (l : Limiter) : Limiter :=
  mkLimiter (mutex l) (userMap l) (isEnabled l) (isStopped l) v
    (punishment l) (maxCount l) (maxTimeout l) (TextOnly l) (msgHandler l)
    (exceptionIDs l) (ignoredExceptions l) (conditions l) (exceptions l)
    (triggers l).

Definition setPunishment (v : Duration.t) (l : Limiter) : Limiter :=
  mkLimiter (mutex l) (userMap l) (isEnabled l) (isStopped l) (timeout l)
    v (maxCount l) (maxTimeout l) (TextOnly l) (msgHandler l)
    (exceptionIDs l) (ignoredExceptions l) (conditions l) (exceptions l)
    (triggers l).

Definition setMaxCount (v : Z) (l : Limiter) : Limiter :=
  mkLimiter (mutex l) (userMap l) (isEnabled l) (isStopped l) (timeout l)
    (punishment l) v (maxTimeout l) (TextOnly l) (msgHandler l)
    (exceptionIDs l) (ignoredExceptions l) (conditions l) (exceptions l)
    (triggers l).

Definition setMaxTimeout (v : Duration.t) (l : Limiter) : Limiter :=
  mkLimiter (mutex l) (userMap l) (isEnabled l) (isStopped l) (timeout l)
    (punishment l) (maxCount l) v (TextOnly l) (msgHandler l)
    (exceptionIDs l) (ignoredExceptions l) (conditions l) (exceptions l)
    (triggers l).

Definition setTextOnly (v : bool) (l : Limiter) : Limiter :=
  mkLimiter (mutex l) (userMap l) (isEnabled l) (isStopped l) (timeout l)
    (punishment l) (maxCount l) (maxTimeout l) v (msgHandler l)
    (exceptionIDs l) (ignoredExceptions l) (conditions l) (exceptions l)
    (triggers l).

Definition setExceptionIDs (v : list Z) (l : Limiter) : Limiter :=
  mkLimiter (mutex l) (userMap l) (isEnabled l) (isStopped l) (timeout l)
    (punishment l) (maxCount l) (maxTimeout l) (TextOnly l) (msgHandler l)
    v (ignoredExceptions l) (conditions l) (exceptions l) (triggers l).

Definition setIgnoredExceptions (v : list Z) (l : Limiter) : Limiter :=
  mkLimiter (mutex l) (userMap l) (isEnabled l) (isStopped l) (timeout l)
    (punishment l) (maxCount l) (maxTimeout l) (TextOnly l) (msgHandler l)
    (exceptionIDs l) v (conditions l) (exceptions l) (triggers l).

Definition setConditions (v : list MessageFilter) (l : Limiter) : Limiter :=
  mkLimiter (mutex l) (userMap l) (isEnabled l) (isStopped l) (timeout l)
    (punishment l) (maxCount l) (maxTimeout l) (TextOnly l) (msgHandler l)
    (exceptionIDs l) (ignoredExceptions l) v (exceptions l) (triggers l).

Definition setExceptions (v : list MessageFilter) (l : Limiter) : Limiter :=
  mkLimiter (mutex l) (userMap l) (isEnabled l) (isStopped l) (timeout l)
    (punishment l) (maxCount l) (maxTimeout l) (TextOnly l) (msgHandler l)
    (exceptionIDs l) (ignoredExceptions l) (conditions l) v (triggers l).

Definition setTriggers (v : list (option Response)) (l : Limiter) : Limiter :=
  mkLimiter (mutex l) (userMap l) (isEnabled l) (isStopped l) (timeout l)
    (punishment l) (maxCount l) (maxTimeout l) (TextOnly l) (msgHandler l)
    (exceptionIDs l) (ignoredExceptions l) (conditions l) (exceptions l) v.

(** *** Lifecycle *)

(** [Start] returns the limiter and whether a [checker] goroutine was
    spawned. *)
Definition Start (l : Limiter) : Limiter * bool :=
  if isEnabled l then (l, false)
  else
    let l1 := match mutex l with
              | None => setMutex (Some newRWMutex) l
              | Some _ => l
              end in
    let l2 := match userMap l1 with
              | None => setUserMap (Some ∅) l1
              | Some _ => l1
              end in
    (setIsStopped false (setIsEnabled true l2), true).

Definition Stop (l : Limiter) : Limiter :=
  if isStopped l then l
  else
    let l1 := setIsStopped true (setIsEnabled false l) in
    match mutex l1 with
    | Some _ => setMutex None (setUserMap None l1)
    | None => l1
    end.

Definition IsStopped (l : Limiter) : bool := isStopped l.
Definition IsEnabled (l : Limiter) : bool := isEnabled l.

(** *** Configuration *)

Definition SetTriggerFuncs (t : list (option Response)) (l : Limiter) : Limiter :=
  setTriggers t l.
Definition SetTriggerFunc (t : option Response) (l : Limiter) : Limiter :=
  SetTriggerFuncs [t] l.
Definition AppendTriggerFuncs (t : list (option Response)) (l : Limiter) : Limiter :=
  setTriggers (triggers l ++ t) l.
Definition AppendTriggerFunc (t : option Response) (l : Limiter) : Limiter :=
  setTriggers (triggers l ++ [t]) l.

Definition AddException (ex : MessageFilter) (l : Limiter) : Limiter :=
  setExceptions (exceptions l ++ [ex]) l.
Definition ClearAllExceptions (l : Limiter) : Limiter := setExceptions [] l.
Definition GetExceptions (l : Limiter) : list MessageFilter := exceptions l.

Definition IsTextOnly (l : Limiter) : bool := TextOnly l.
Definition SetTextOnly (t : bool) (l : Limiter) : Limiter := setTextOnly t l.

Definition IsAllowingChannels (l : Limiter) : bool :=
  match msgHandler l with
  | None => false
  | Some h => AllowChannel h
  end.

Definition IsAllowingEdits (l : Limiter) : bool :=
  match msgHandler l with
  | None => false
  | Some h => AllowEdited h
  end.

(** [AddExceptionID(id ...int64)]: the variadic ids are appended as they
    are. *)
Definition AddExceptionID (id : list Z) (l : Limiter) : Limiter :=
  setExceptionIDs (exceptionIDs l ++ id) l.

Definition AddCondition (c : MessageFilter) (l : Limiter) : Limiter :=
  setConditions (conditions l ++ [c]) l.
Definition ClearAllConditions (l : Limiter) : Limiter := setConditions [] l.
Definition AddConditions (cs : list MessageFilter) (l : Limiter) : Limiter :=
  setConditions (conditions l ++ cs) l.
Definition SetAsConditions (cs : list MessageFilter) (l : Limiter) : Limiter :=
  setConditions cs l.

Definition ClearAllExceptionIDs (l : Limiter) : Limiter := setExceptionIDs [] l.

Definition IsInExceptionList (id : Z) (l : Limiter) : bool :=
  if (length (exceptionIDs l) =? 0)%nat then false
  else fst (rangeUntil (fun ex => sameID ex id) (exceptionIDs l)).

Definition SetAsExceptionList (ids : list Z) (l : Limiter) : Limiter :=
  setExceptionIDs ids l.

Definition SetFloodWaitTime (d : Duration.t) (l : Limiter) : Limiter :=
  setTimeout d l.
Definition SetPunishmentDuration (d : Duration.t) (l : Limiter) : Limiter :=
  setPunishment d l.
Definition SetMaxMessageCount (n : Z) (l : Limiter) : Limiter :=
  setMaxCount n l.

Definition SetMaxCacheDuration (d : Duration.t) (l : Limiter) : Limiter :=
  if Duration.add (punishment l) (timeout l) <? d
  then setMaxTimeout d l
  else setMaxTimeout
         (Duration.add (Duration.add (punishment l) (timeout l)) Duration.Minute) l.

Definition SetDefaultInterval (l : Limiter) : Limiter :=
  setMaxTimeout
    (Duration.add (Duration.add (punishment l) (timeout l)) Duration.Minute) l.

(** *** The registry *)

(** [l.userMap[id]]: reading a nil map, a missing key or a nil entry all
    give a nil status. *)
Definition lookupStatus (id : Z) (l : Limiter) : option UserStatus :=
  match userMap l with
  | None => None
  | Some m => match m !! id with
              | Some (Some s) => Some s
              | _ => None
              end
  end.

(** [l.userMap[id] = status], and a write through the [*UserStatus] that
    the entry of [id] holds: assigning into a nil map panics. *)
Definition storeStatus (id : Z) (s : UserStatus) (l : Limiter) : Result Limiter :=
  match userMap l with
  | None => Panic AssignmentToNilMap
  | Some m => Ok (setUserMap (Some (<[id := Some s]> m)) l)
  end.

Definition GetStatus (id : Z) (l : Limiter) : Result (option UserStatus) :=
  RLock (mutex l);;
  let status := lookupStatus id l in
  RUnlock (mutex l);;
  Ok status.

Definition addIgnoredExceptions (id : Z) (l : Limiter) : Limiter :=
  if (length (ignoredExceptions l) =? 0)%nat
  then setIgnoredExceptions (ignoredExceptions l ++ [id]) l
  else if fst (rangeUntil (fun ex => sameID ex id) (ignoredExceptions l))
       then l
       else setIgnoredExceptions (ignoredExceptions l ++ [id]) l.

(** The index at which [for i, ex := range ids] first meets [ex == id]. *)
Fixpoint firstIndex (id : Z) (ids : list Z) : option nat :=
  match ids with
  | [] => None
  | ex :: rest => if ex =? id then Some 0%nat else S <$> firstIndex id rest
  end.

Definition removeFromIgnoredExceptions (id : Z) (l : Limiter) : Limiter :=
  if (length (ignoredExceptions l) =? 0)%nat then l
  else match firstIndex id (ignoredExceptions l) with
       | Some i =>
           setIgnoredExceptions
             (take i (ignoredExceptions l) ++ drop (S i) (ignoredExceptions l)) l
       | None => l
       end.

Definition AddCustomIgnore (now : Time.t) (id : Z) (d : Duration.t)
    (ignoreExceptions : bool) (l : Limiter) : Result Limiter :=
  Lock (mutex l);;
  let override := {| startTime := now; duration := d;
                     ignoreException := ignoreExceptions |} in
  match lookupStatus id l with
  | None =>
      let status := setCustom (Some override) newUserStatus in
      l1 ← storeStatus id status l;
      let l2 := if ignoreExceptions then addIgnoredExceptions id l1 else l1 in
      Unlock (mutex l2);;
      Ok l2
  | Some status =>
      l1 ← storeStatus id (setCustom (Some override) status) l;
      let l2 := if ignoreExceptions then addIgnoredExceptions id l1 else l1 in
      Unlock (mutex l2);;
      Ok l2
  end.

Definition RemoveCustomIgnore (id : Z) (l : Limiter) : Result Limiter :=
  Lock (mutex l);;
  match lookupStatus id l with
  | None => Unlock (mutex l);; Ok l
  | Some status =>
      match custom status with
      | None => Unlock (mutex l);; Ok l
      | Some c =>
          let l1 := if ignoreException c
                    then removeFromIgnoredExceptions id l else l in
          l2 ← storeStatus id (setCustom None status) l1;
          Unlock (mutex l2);;
          Ok l2
      end
  end.

(** *** Exception checks *)

Definition hasTextCondition (msg : option Message.t) (l : Limiter) : Result bool :=
  if TextOnly l then
    match msg with
    | None => Panic NilPointerDereference
    | Some m => Ok (0 <? String.length (Message.Text m))%nat
    end
  else Ok true.

(** The triggers that [runTriggers] invokes, in order: the non-nil ones. *)
Definition runTriggers (l : Limiter) : list Response :=
  omap (fun t => t) (triggers l).

(** The test of one list entry against a message's sender and chat. *)
Definition matchesMessage (m : Message.t) (ex : Z) : Scan :=
  match Message.From m with
  | Some u => orElse (sameID ex (User.Id u)) (sameID ex (Chat.Id (Message.Chat m)))
  | None => sameID ex (Chat.Id (Message.Chat m))
  end.

(** The test of one list entry against a callback query. *)
Definition matchesQuery (cq : CallbackQuery.t) (ex : Z) : Scan :=
  orElse (sameID ex (User.Id (CallbackQuery.From cq)))
         (match CallbackQuery.Message cq with
          | Some m => sameID ex (Chat.Id (Message.GetChat m))
          | None => (false, 0%nat)
          end).

Definition isException (msg : option Message.t) (l : Limiter) : Scan :=
  if (length (exceptionIDs l) =? 0)%nat then (false, 0%nat)
  else match msg with
       | None => (false, 0%nat)
       | Some m => rangeUntil (matchesMessage m) (exceptionIDs l)
       end.

Definition isExceptionQuery (cq : option CallbackQuery.t) (l : Limiter) : Scan :=
  if (length (exceptionIDs l) =? 0)%nat then (false, 0%nat)
  else match cq with
       | None => (false, 0%nat)
       | Some q => rangeUntil (matchesQuery q) (exceptionIDs l)
       end.

Definition isExceptionCtx (ctx : Context.t) (l : Limiter) : Scan :=
  match Context.CallbackQuery ctx with
  | Some q => isExceptionQuery (Some q) l
  | None => isException (Context.Message ctx) l
  end.

Definition isIgnoredException (msg : option Message.t) (l : Limiter) : Result Scan :=
  if (length (ignoredExceptions l) =? 0)%nat then Ok (false, 0%nat)
  else match msg with
       | None => Panic NilPointerDereference
       | Some m => Ok (rangeUntil (matchesMessage m) (ignoredExceptions l))
       end.

Definition isIgnoredExceptionQuery (cq : option CallbackQuery.t) (l : Limiter)
    : Result Scan :=
  if (length (ignoredExceptions l) =? 0)%nat then Ok (false, 0%nat)
  else match cq with
       | None => Panic NilPointerDereference
       | Some q => Ok (rangeUntil (matchesQuery q) (ignoredExceptions l))
       end.

(** *** Eviction *)

(** [canBeDeleted] evaluates [IsCustomLimited] only when the operands
    before it hold, so the status is changed only on that path. *)
Definition canBeDeleted (now : Time.t) (l : Limiter) (s : UserStatus)
    : bool * UserStatus :=
  if Time.IsZero (Last s) then (true, s)
  else if timeout l <? Time.Since now (Last s) then
    if negb (limited s) then
      let r := IsCustomLimited now s in (negb (fst r), snd r)
    else (false, s)
  else (false, s).

(** One entry of the sweep: [None] deletes the key, [Some v] keeps it. *)
Definition sweepEntry (now : Time.t) (l : Limiter) (value : option UserStatus)
    : option (option UserStatus) :=
  match value with
  | None => None
  | Some s =>
      let r := canBeDeleted now l s in
      if fst r then None else Some (Some (snd r))
  end.

(** The outcome of one pass through the body of the [checker] loop. *)
Inductive Iteration : Type :=
| LoopEnded (l : Limiter)
| Returned (slept : Duration.t) (l : Limiter)
| Continued (slept : Duration.t) (l : Limiter).

(** The interval correction at the head of the loop body. *)
Definition checkerInterval (l : Limiter) : Limiter :=
  if maxTimeout l <? Duration.Second then SetDefaultInterval l else l.

(** [time.Sleep(d)] returns at once when [d <= 0]. *)
Definition afterSleep (now : Time.t) (d : Duration.t) : Time.t :=
  now + Z.max 0 d.

(** One iteration of [checker], entered at clock reading [now]; [asleep]
    is what other goroutines do to the limiter while the checker sleeps.
    The sweep reads the clock once.  Writes by other goroutines between the
    check of the interval and the sleep, or between the nil guard and the
    lock, are outside this embedding. *)
Definition checkerIteration (asleep : Limiter -> Limiter) (now : Time.t)
    (l : Limiter) : Result Iteration :=
  if isEnabled l && negb (isStopped l) then
    let l1 := checkerInterval l in
    let slept := maxTimeout l1 in
    let l2 := asleep l1 in
    match userMap l2, mutex l2 with
    | Some m, Some _ =>
        if (size m =? 0)%nat then Ok (Continued slept l2)
        else
          Lock (mutex l2);;
          let l3 := setUserMap
                      (Some (omap (sweepEntry (afterSleep now slept) l2) m)) l2 in
          Unlock (mutex l3);;
          Ok (Continued slept l3)
    | _, _ => Ok (Returned slept l2)
    end
  else Ok (LoopEnded l).

(** [checker], with one entry of [asleep] per sleep: the intervals slept
    and the limiter when the loop is left (or the list runs out). *)
Fixpoint checker (asleep : list (Limiter -> Limiter)) (now : Time.t)
    (l : Limiter) : Result (list Duration.t * Limiter) :=
  match asleep with
  | [] => Ok ([], l)
  | env :: rest =>
      it ← checkerIteration env now l;
      match it with
      | LoopEnded l' => Ok ([], l')
      | Returned slept l' => Ok ([slept], l')
      | Continued slept l' =>
          r ← checker rest (afterSleep now slept) l';
          Ok (slept :: fst r, snd r)
      end
  end.

End Limiter.

Arguments Limiter : clear implicits.

(** ** Predicates of the specification *)

(** The override of [s] is active at [now]: [IsCustomLimited] holds. *)
Definition activeOverride (now : Time.t) (s : UserStatus) : Prop :=
  fst (IsCustomLimited now s) = true.

(** The eligibility rule for eviction. *)
Definition evictable {Response : Type} (now : Time.t) (l : Limiter Response)
    (s : UserStatus) : Prop :=
  Time.IsZero (Last s) = true \/
  (timeout l < Time.Since now (Last s) /\ limited s = false /\
   ~ activeOverride now s).

(** A mutation of the ignored-exceptions list through one of its two
    internal operations, and a run of such mutations. *)
Inductive IgnoredOp : Type :=
| AddIgnored (id : Z)
| RemoveIgnored (id : Z).

Definition applyIgnoredOp {Response : Type} (l : Limiter Response)
    (op : IgnoredOp) : Limiter Response :=
  match op with
  | AddIgnored id => addIgnoredExceptions id l
  | RemoveIgnored id => removeFromIgnoredExceptions id l
  end.

Definition applyIgnoredOps {Response : Type} (ops : list IgnoredOp)
    (l : Limiter Response) : Limiter Response :=
  fold_left applyIgnoredOp ops l.

(** The interval an iteration of the checker slept for, if it slept. *)
Definition sleptOf {Response : Type} (it : @Iteration Response)
    : option Duration.t :=
  match it with
  | LoopEnded _ => None
  | Returned slept _ => Some slept
  | Continued slept _ => Some slept
  end.

(** The map is allocated only together with its lock: [Start] allocates
    both and [Stop] releases both. *)
Definition registryInvariant {Response : Type} (l : Limiter Response) : Prop :=
  mutex l = None -> userMap l = None.

(** Two limiters agree on every configuration field. *)
Definition sameConfig {Response : Type} (l l' : Limiter Response) : Prop :=
  timeout l' = timeout l /\ punishment l' = punishment l /\
  maxCount l' = maxCount l /\ maxTimeout l' = maxTimeout l /\
  TextOnly l' = TextOnly l /\ msgHandler l' = msgHandler l /\
  exceptionIDs l' = exceptionIDs l /\
  ignoredExceptions l' = ignoredExceptions l /\
  conditions l' = conditions l /\ exceptions l' = exceptions l /\
  triggers l' = triggers l.

(** The sender or the chat of a message is in a list of ids. *)
Definition messageListed (ids : list Z) (m : Message.t) : Prop :=
  In (Chat.Id (Message.Chat m)) ids \/
  exists u : User.t, Message.From m = Some u /\ In (User.Id u) ids.

(** The sender of a callback query, or the chat of the message it carries,
    is in a list of ids. *)
Definition queryListed (ids : list Z) (q : CallbackQuery.t) : Prop :=
  In (User.Id (CallbackQuery.From q)) ids \/
  exists m : Message.t,
    CallbackQuery.Message q = Some m /\ In (Chat.Id (Message.GetChat m)) ids.

(** ** Runs of method calls

    A call of one of the methods that write the limiter, and one iteration
    of the checker with nothing else running meanwhile. *)

Section Calls.

Context {Response : Type}.

Inductive Call : Type :=
| CallStart
| CallStop
| CallSetTriggerFuncs (t : list (option Response))
| CallSetTriggerFunc (t : option Response)
| CallAppendTriggerFuncs (t : list (option Response))
| CallAppendTriggerFunc (t : option Response)
| CallAddException (ex : MessageFilter)
| CallClearAllExceptions
| CallSetTextOnly (t : bool)
| CallAddExceptionID (ids : list Z)
| CallAddCondition (c : MessageFilter)
| CallClearAllConditions
| CallAddConditions (cs : list MessageFilter)
| CallSetAsConditions (cs : list MessageFilter)
| CallClearAllExceptionIDs
| CallSetAsExceptionList (ids : list Z)
| CallSetFloodWaitTime (d : Duration.t)
| CallSetPunishmentDuration (d : Duration.t)
| CallSetMaxMessageCount (n : Z)
| CallSetMaxCacheDuration (d : Duration.t)
| CallSetDefaultInterval
| CallAddCustomIgnore (now : Time.t) (id : Z) (d : Duration.t) (ignoreExceptions : bool)
| CallRemoveCustomIgnore (id : Z)
| CallCheckerIteration (now : Time.t).

(** The limiter an iteration of the checker ends on. *)
Definition limiterOf (it : @Iteration Response) : Limiter Response :=
  match it with
  | LoopEnded l => l
  | Returned _ l => l
  | Continued _ l => l
  end.

Definition runCall (c : Call) (l : Limiter Response) : Result (Limiter Response) :=
  match c with
  | CallStart => Ok (fst (Start l))
  | CallStop => Ok (Stop l)
  | CallSetTriggerFuncs t => Ok (SetTriggerFuncs t l)
  | CallSetTriggerFunc t => Ok (SetTriggerFunc t l)
  | CallAppendTriggerFuncs t => Ok (AppendTriggerFuncs t l)
  | CallAppendTriggerFunc t => Ok (AppendTriggerFunc t l)
  | CallAddException ex => Ok (AddException ex l)
  | CallClearAllExceptions => Ok (ClearAllExceptions l)
  | CallSetTextOnly t => Ok (SetTextOnly t l)
  | CallAddExceptionID ids => Ok (AddExceptionID ids l)
  | CallAddCondition c => Ok (AddCondition c l)
  | CallClearAllConditions => Ok (ClearAllConditions l)
  | CallAddConditions cs => Ok (AddConditions cs l)
  | CallSetAsConditions cs => Ok (SetAsConditions cs l)
  | CallClearAllExceptionIDs => Ok (ClearAllExceptionIDs l)
  | CallSetAsExceptionList ids => Ok (SetAsExceptionList ids l)
  | CallSetFloodWaitTime d => Ok (SetFloodWaitTime d l)
  | CallSetPunishmentDuration d => Ok (SetPunishmentDuration d l)
  | CallSetMaxMessageCount n => Ok (SetMaxMessageCount n l)
  | CallSetMaxCacheDuration d => Ok (SetMaxCacheDuration d l)
  | CallSetDefaultInterval => Ok (SetDefaultInterval l)
  | CallAddCustomIgnore now id d ie => AddCustomIgnore now id d ie l
  | CallRemoveCustomIgnore id => RemoveCustomIgnore id l
  | CallCheckerIteration now =>
      it ← checkerIteration (fun x => x) now l; Ok (limiterOf it)
  end.

(** The calls in order; a panic ends the run. *)
Fixpoint runCalls (cs : list Call) (l : Limiter Response) : Result (Limiter Response) :=
  match cs with
  | [] => Ok l
  | c :: rest => l' ← runCall c l; runCalls rest l'
  end.

(** An enabled limiter has its lock and its map, and the map is never
    allocated without the lock. *)
Definition lifecycleInvariant (l : Limiter Response) : Prop :=
  (isEnabled l = true -> mutex l <> None /\ userMap l <> None) /\
  (mutex l = None -> userMap l = None).

End Calls.

(** ** Concrete limiter states *)

(** [new(Limiter)]: every field at its zero value. *)
Definition zeroLimiter : Limiter unit :=
  {| mutex := None; userMap := None; isEnabled := false; isStopped := false;
     timeout := 0; punishment := 0; maxCount := 0; maxTimeout := 0;
     TextOnly := false; msgHandler := None; exceptionIDs := [];
     ignoredExceptions := []; conditions := []; exceptions := [];
     triggers := [] |}.

(** A running limiter with a window of 10s and a punishment of 30s. *)
Definition runningLimiter : Limiter unit :=
  fst (Start (SetMaxMessageCount 3
         (SetPunishmentDuration (Duration.seconds 30)
            (SetFloodWaitTime (Duration.seconds 10) zeroLimiter)))).

(** An instant well after the zero instant, and an override without expiry
    installed at that instant. *)
Definition someInstant : Time.t := 5000 * Duration.Second.

Definition indefiniteOverride : customIgnore :=
  {| startTime := someInstant; duration := 0; ignoreException := false |}.

(** The status that [AddCustomIgnore] creates for an id it has not seen. *)
Definition overriddenFresh : UserStatus :=
  setCustom (Some indefiniteOverride) newUserStatus.

(** A limited status that was never stamped with a last-seen time. *)
Definition limitedFresh : UserStatus :=
  {| Last := Time.zero; limited := true; count := 4; custom := None |}.

(** A limiter whose punishment was set to minus two minutes. *)
Definition negativePunishment : Limiter unit :=
  fst (Start (SetPunishmentDuration (Duration.wrap (- 2 * Duration.Minute))
                zeroLimiter)).

(** An override of one second installed at [someInstant], on a status last
    seen at that instant. *)
Definition timedOverride : customIgnore :=
  {| startTime := someInstant; duration := Duration.Second;
     ignoreException := true |}.

Definition timedStatus : UserStatus :=
  {| Last := someInstant; limited := false; count := 1;
     custom := Some timedOverride |}.

Definition twoSecondsLater : Time.t := someInstant + 2 * Duration.Second.

(** A running limiter whose ignored-exceptions list is [1; 2; 3]. *)
Definition ignoring123 : Limiter unit :=
  setIgnoredExceptions [1; 2; 3] runningLimiter.

(** A running limiter whose exception-ID list is [7]. *)
Definition exceptingSeven : Limiter unit := AddExceptionID [7] runningLimiter.

(** A message from user 7 in chat 9. *)
Definition messageFromSeven : Message.t :=
  Message.mk (Some (User.mk 7)) (Chat.mk 9) "hello".

Definition queryFromSeven : CallbackQuery.t :=
  CallbackQuery.mk (User.mk 7) (Some messageFromSeven).

(** The running limiter with a status for id 7 and a nil entry for id 8. *)
Definition populatedLimiter : Limiter unit :=
  setUserMap (Some (<[8 := None]> (<[7 := Some timedStatus]> ∅))) runningLimiter.

(** A message in chat 9 without a sender, and a query without a message. *)
Definition anonymousMessage : Message.t := Message.mk None (Chat.mk 9) "".

Definition bareQuery : CallbackQuery.t := CallbackQuery.mk (User.mk 7) None.

(** The running limiter with one status, for id 7, that has no override. *)
Definition plainStatus : UserStatus :=
  {| Last := someInstant; limited := false; count := 1; custom := None |}.

Definition plainLimiter : Limiter unit :=
  setUserMap (Some (<[7 := Some plainStatus]> ∅)) runningLimiter.

(** The running limiter with a limited status for id 7, a nil entry for
    id 8 and a stale status for id 9. *)
Definition limitedSeen : UserStatus :=
  {| Last := someInstant; limited := true; count := 4; custom := None |}.

Definition mixedLimiter : Limiter unit :=
  setUserMap
    (Some (<[9 := Some plainStatus]> (<[8 := None]> (<[7 := Some limitedSeen]> ∅))))
    runningLimiter.

(** A limiter whose lock is allocated and whose map is nil. *)
Definition lockOnly : Limiter unit := setMutex (Some newRWMutex) zeroLimiter.

(** A life of a limiter: started, given an override, stopped, started
    again, given two more overrides of which one is removed, and swept. *)
Definition sampleRun : list (@Call unit) :=
  [CallStart; CallAddCustomIgnore someInstant 7 0 true; CallStop; CallStart;
   CallAddCustomIgnore someInstant 7 Duration.Second true;
   CallAddCustomIgnore someInstant 9 0 true;
   CallRemoveCustomIgnore 9; CallAddExceptionID [7; 7];
   CallCheckerIteration twoSecondsLater].

(** ** Durations and instants *)

Lemma wrap_inRange (z : Z) : Duration.inRange (Duration.wrap z).
Proof.
  unfold Duration.inRange, Duration.wrap, Duration.minDuration, Duration.maxDuration.
  pose proof (Z.mod_pos_bound (z + 2 ^ 63) (2 ^ 64) ltac:(lia)). lia.
Qed.

Lemma wrap_small (z : Z) : Duration.inRange z -> Duration.wrap z = z.
Proof.
  unfold Duration.inRange, Duration.wrap, Duration.minDuration, Duration.maxDuration.
  intros Hz. rewrite Z.mod_small; lia.
Qed.

Lemma add_small (a b : Duration.t) :
  Duration.inRange (a + b) -> Duration.add a b = a + b.
Proof. apply wrap_small. Qed.

Lemma Sub_inRange (a b : Time.t) : Duration.inRange (Time.Sub a b).
Proof.
  unfold Time.Sub, Duration.inRange.
  destruct (Z.ltb_spec (a - b) Duration.minDuration);
    [unfold Duration.minDuration, Duration.maxDuration; lia |].
  destruct (Z.ltb_spec Duration.maxDuration (a - b));
    [unfold Duration.minDuration, Duration.maxDuration; lia | lia].
Qed.

Lemma Sub_exact (a b : Time.t) :
  Duration.inRange (a - b) -> Time.Sub a b = a - b.
Proof.
  unfold Time.Sub, Duration.inRange. intros [Hlo Hhi].
  destruct (Z.ltb_spec (a - b) Duration.minDuration); [lia |].
  destruct (Z.ltb_spec Duration.maxDuration (a - b)); [lia | reflexivity].
Qed.

(** ** Custom overrides *)

Lemma IsCustomLimited_keeps_or_clears (now : Time.t) (s : UserStatus) :
  snd (IsCustomLimited now s) = s \/ snd (IsCustomLimited now s) = setCustom None s.
Proof.
  unfold IsCustomLimited. destruct (custom s) as [c|]; [| by left].
  destruct (_ && _); [by right | by left].
Qed.

Lemma IsCustomLimited_true_unchanged (now : Time.t) (s : UserStatus) :
  fst (IsCustomLimited now s) = true -> IsCustomLimited now s = (true, s).
Proof.
  unfold IsCustomLimited. destruct (custom s) as [c|]; [| discriminate].
  destruct (_ && _); [discriminate | reflexivity].
Qed.

(** C2: [IsCustomLimited] is false without an override; an override with a
    non-zero duration that the elapsed time exceeds is cleared and the result
    is false; an override of zero duration never expires and the result is
    true; and an override that has not expired gives true, the status left
    as it was. *)
Theorem IsCustomLimited_spec (now : Time.t) (s : UserStatus) :
  (custom s = None -> IsCustomLimited now s = (false, s)) /\
  (forall c, custom s = Some c ->
     duration c <> 0 -> duration c < Time.Since now (startTime c) ->
     fst (IsCustomLimited now s) = false /\
     custom (snd (IsCustomLimited now s)) = None /\
     snd (IsCustomLimited now s) = setCustom None s) /\
  (forall c, custom s = Some c -> duration c = 0 ->
     IsCustomLimited now s = (true, s)) /\
  (forall c, custom s = Some c ->
     Time.Since now (startTime c) <= duration c ->
     IsCustomLimited now s = (true, s)).
Proof.
  unfold IsCustomLimited. split; [| split; [| split]].
  - intros ->. reflexivity.
  - intros c -> Hnz Hlt.
    destruct (Z.ltb_spec (duration c) (Time.Since now (startTime c))); [| lia].
    destruct (Z.eqb_spec (duration c) 0); [contradiction |].
    simpl. auto.
  - intros c -> Hz. rewrite Hz. simpl. rewrite andb_false_r. reflexivity.
  - intros c -> Hle.
    destruct (Z.ltb_spec (duration c) (Time.Since now (startTime c))); [lia |].
    reflexivity.
Qed.

(** The four cases at concrete statuses. *)
Lemma IsCustomLimited_spec_witness :
  IsCustomLimited someInstant newUserStatus = (false, newUserStatus) /\
  (fst (IsCustomLimited twoSecondsLater timedStatus) = false /\
   custom (snd (IsCustomLimited twoSecondsLater timedStatus)) = None /\
   snd (IsCustomLimited twoSecondsLater timedStatus) = setCustom None timedStatus) /\
  IsCustomLimited twoSecondsLater overriddenFresh = (true, overriddenFresh) /\
  IsCustomLimited someInstant timedStatus = (true, timedStatus).
Proof.
  pose proof (IsCustomLimited_spec someInstant newUserStatus) as (H1 & _).
  pose proof (IsCustomLimited_spec twoSecondsLater timedStatus) as (_ & H2 & _).
  pose proof (IsCustomLimited_spec twoSecondsLater overriddenFresh) as (_ & _ & H3 & _).
  pose proof (IsCustomLimited_spec someInstant timedStatus) as (_ & _ & _ & H4).
  split; [apply H1; reflexivity |].
  split; [apply (H2 timedOverride); [reflexivity | discriminate | reflexivity] |].
  split; [apply (H3 indefiniteOverride); reflexivity |].
  apply (H4 timedOverride); [reflexivity | discriminate].
Defined.


(** ** Eviction eligibility *)

Section Eviction.

Context {Response : Type}.
Implicit Types (l : Limiter Response) (s : UserStatus) (now : Time.t).

Lemma canBeDeleted_iff now l s :
  fst (canBeDeleted now l s) = true <-> evictable now l s.
Proof.
  unfold canBeDeleted, evictable, activeOverride.
  destruct (Time.IsZero (Last s)) eqn:Hz; simpl; [tauto |].
  destruct (Z.ltb_spec (timeout l) (Time.Since now (Last s))) as [Hlt | Hge];
    simpl; [| intuition (try discriminate; lia)].
  destruct (limited s); simpl; [intuition discriminate |].
  destruct (fst (IsCustomLimited now s)); simpl; intuition (try discriminate).
Qed.

(** A status is changed by the check only when the check deletes it. *)
Lemma canBeDeleted_false_unchanged now l s :
  fst (canBeDeleted now l s) = false -> snd (canBeDeleted now l s) = s.
Proof.
  unfold canBeDeleted.
  destruct (Time.IsZero (Last s)); simpl; [discriminate |].
  destruct (_ <? _); simpl; [| reflexivity].
  destruct (limited s); simpl; [reflexivity |].
  destruct (fst (IsCustomLimited now s)) eqn:Hc; simpl; [| discriminate].
  intros _. by rewrite (IsCustomLimited_true_unchanged _ _ Hc).
Qed.

(** C1, as amended: [canBeDeleted] holds exactly when the last-seen time
    is zero, or the time since it exceeds the window and the status is
    neither limited nor under an active override; hence a status with a
    non-zero last-seen time that is limited or under an active override
    is never eligible. *)
Theorem canBeDeleted_spec now l s :
  (fst (canBeDeleted now l s) = true <->
     Time.IsZero (Last s) = true \/
     (timeout l < Time.Since now (Last s) /\ limited s = false /\
      fst (IsCustomLimited now s) = false)) /\
  (Time.IsZero (Last s) = false ->
   limited s = true \/ fst (IsCustomLimited now s) = true ->
   fst (canBeDeleted now l s) = false).
Proof.
  split.
  - rewrite canBeDeleted_iff. unfold evictable, activeOverride.
    destruct (fst (IsCustomLimited now s)); intuition congruence.
  - intros Hnz Hheld. apply not_true_is_false. rewrite canBeDeleted_iff.
    unfold evictable, activeOverride. intros [Hz | (_ & Hlim & Hov)].
    + congruence.
    + destruct Hheld; congruence.
Qed.

(** What a sweep does to the entry of one key. *)
Lemma sweep_lookup now l (m : gmap Z (option UserStatus)) (id : Z) :
  omap (sweepEntry now l) m !! id =
    match m !! id with
    | Some (Some s) => if fst (canBeDeleted now l s) then None else Some (Some s)
    | _ => None
    end.
Proof.
  rewrite lookup_omap. destruct (m !! id) as [[s|]|]; simpl; try reflexivity.
  destruct (fst (canBeDeleted now l s)) eqn:Hd; [reflexivity |].
  by rewrite canBeDeleted_false_unchanged.
Qed.

End Eviction.

(** C1, the claim as stated fails: the status that [AddCustomIgnore] creates
    for an unseen id is under an active override, and a limited status with
    a zero last-seen time is limited, yet both are eligible for eviction. *)
Lemma canBeDeleted_zero_last_counterexample :
  (fst (IsCustomLimited twoSecondsLater overriddenFresh) = true /\
   fst (canBeDeleted twoSecondsLater runningLimiter overriddenFresh) = true) /\
  (limited limitedFresh = true /\
   fst (canBeDeleted twoSecondsLater runningLimiter limitedFresh) = true).
Proof. vm_compute. auto. Qed.

(** A status seen at [someInstant] and under an unexpired override is kept. *)
Lemma canBeDeleted_spec_witness :
  fst (canBeDeleted someInstant runningLimiter timedStatus) = false.
Proof.
  apply (proj2 (canBeDeleted_spec someInstant runningLimiter timedStatus)).
  - reflexivity.
  - right. reflexivity.
Defined.

(** ** The cache interval *)

Section Interval.

Context {Response : Type}.
Implicit Types (l : Limiter Response) (d : Duration.t).

(** [punishment + timeout + time.Minute], the default interval. *)
Lemma SetDefaultInterval_maxTimeout l :
  maxTimeout (SetDefaultInterval l) =
    Duration.add (Duration.add (punishment l) (timeout l)) Duration.Minute.
Proof. reflexivity. Qed.

(** The setter touches the interval only. *)
Lemma SetMaxCacheDuration_frame l d :
  punishment (SetMaxCacheDuration d l) = punishment l /\
  timeout (SetMaxCacheDuration d l) = timeout l /\
  userMap (SetMaxCacheDuration d l) = userMap l /\
  mutex (SetMaxCacheDuration d l) = mutex l.
Proof. unfold SetMaxCacheDuration. destruct (_ <? _); auto. Qed.

(** C3, as amended: [SetMaxCacheDuration d] stores [d] when [d] is
    strictly greater than [punishment + timeout], and otherwise stores
    [punishment + timeout + 1 minute]; with a punishment of 30s and a
    window of 10s, [SetMaxCacheDuration (5s)] stores 100s. *)
Theorem SetMaxCacheDuration_spec l d :
  (Duration.add (punishment l) (timeout l) < d ->
   maxTimeout (SetMaxCacheDuration d l) = d) /\
  (d <= Duration.add (punishment l) (timeout l) ->
   maxTimeout (SetMaxCacheDuration d l) =
     Duration.add (Duration.add (punishment l) (timeout l)) Duration.Minute) /\
  (punishment l = Duration.seconds 30 -> timeout l = Duration.seconds 10 ->
   maxTimeout (SetMaxCacheDuration (Duration.seconds 5) l) = Duration.seconds 100).
Proof.
  unfold SetMaxCacheDuration. split; [| split].
  - intros Hlt.
    destruct (Z.ltb_spec (Duration.add (punishment l) (timeout l)) d); [reflexivity | lia].
  - intros Hle.
    destruct (Z.ltb_spec (Duration.add (punishment l) (timeout l)) d); [lia | reflexivity].
  - intros -> ->. reflexivity.
Qed.

(** Without overflow the sums are the mathematical ones. *)
Lemma SetMaxCacheDuration_exact l d :
  Duration.inRange (punishment l + timeout l) ->
  Duration.inRange (punishment l + timeout l + Duration.Minute) ->
  maxTimeout (SetMaxCacheDuration d l) =
    if punishment l + timeout l <? d then d
    else punishment l + timeout l + Duration.Minute.
Proof.
  intros H1 H2. unfold SetMaxCacheDuration.
  rewrite (add_small _ _ H1), (add_small _ _ H2).
  destruct (_ <? _); reflexivity.
Qed.

End Interval.

(** C3, the claim's example fails: with a punishment of 30s and a window of
    10s, [SetMaxCacheDuration (5s)] stores 100s, which is not 101s. *)
Lemma SetMaxCacheDuration_5s_counterexample :
  punishment runningLimiter = Duration.seconds 30 /\
  timeout runningLimiter = Duration.seconds 10 /\
  maxTimeout (SetMaxCacheDuration (Duration.seconds 5) runningLimiter)
    = 100 * Duration.Second /\
  maxTimeout (SetMaxCacheDuration (Duration.seconds 5) runningLimiter)
    <> Duration.seconds 101.
Proof. vm_compute. repeat split; discriminate. Qed.

(** The setter on the running limiter: above, at and below the threshold. *)
Lemma SetMaxCacheDuration_spec_witness :
  maxTimeout (SetMaxCacheDuration (Duration.seconds 90) runningLimiter)
    = Duration.seconds 90 /\
  maxTimeout (SetMaxCacheDuration (Duration.seconds 40) runningLimiter)
    = Duration.seconds 100 /\
  maxTimeout (SetMaxCacheDuration (Duration.seconds 5) runningLimiter)
    = Duration.seconds 100.
Proof.
  split; [| split].
  - apply (proj1 (SetMaxCacheDuration_spec runningLimiter (Duration.seconds 90))).
    vm_compute. reflexivity.
  - apply (proj1 (proj2 (SetMaxCacheDuration_spec runningLimiter (Duration.seconds 40)))).
    vm_compute. discriminate.
  - apply (proj2 (proj2 (SetMaxCacheDuration_spec runningLimiter 0))); reflexivity.
Defined.

(** ** Linear scans over id lists *)

Lemma rangeUntil_sameID (id : Z) (ids : list Z) :
  fst (rangeUntil (fun ex => sameID ex id) ids) = true <-> In id ids.
Proof.
  induction ids as [| ex rest IH]; simpl.
  - split; [discriminate | contradiction].
  - destruct (Z.eqb_spec ex id) as [-> | Hne]; simpl.
    + split; auto.
    + rewrite IH. split; [auto | intros [Heq | Hin]; [contradiction | exact Hin]].
Qed.

Lemma rangeUntil_empty (test : Z -> Scan) : rangeUntil test [] = (false, 0%nat).
Proof. reflexivity. Qed.

(** [firstIndex] finds the first occurrence, or none when [id] is absent. *)
Lemma firstIndex_spec (id : Z) (ids : list Z) :
  match firstIndex id ids with
  | Some i => exists l1 l2 : list Z,
                ids = l1 ++ id :: l2 /\ ~ In id l1 /\ length l1 = i
  | None => ~ In id ids
  end.
Proof.
  induction ids as [| ex rest IH]; simpl; [auto |].
  destruct (Z.eqb_spec ex id) as [-> | Hne].
  - exists [], rest. auto.
  - destruct (firstIndex id rest) as [i |]; simpl.
    + destruct IH as (l1 & l2 & -> & Hnot & Hlen).
      exists (ex :: l1), l2. simpl. repeat split; [| lia].
      intros [Heq | Hin]; [contradiction | exact (Hnot Hin)].
    + intros [Heq | Hin]; [contradiction | exact (IH Hin)].
Qed.

(** The first occurrence of an element splits a list in one way only. *)
Lemma first_occurrence_unique (id : Z) (a1 a2 b1 b2 : list Z) :
  a1 ++ id :: a2 = b1 ++ id :: b2 -> ~ In id a1 -> ~ In id b1 ->
  a1 = b1 /\ a2 = b2.
Proof.
  revert b1. induction a1 as [| x a1 IH]; intros [| y b1] Heq Ha Hb; simpl in *.
  - by inversion Heq.
  - inversion Heq; subst. exfalso. apply Hb. auto.
  - inversion Heq; subst. exfalso. apply Ha. auto.
  - inversion Heq; subst.
    destruct (IH b1) as [-> ->]; auto.
Qed.

Lemma cut_at_first (id : Z) (l1 l2 : list Z) :
  take (length l1) (l1 ++ id :: l2) ++ drop (S (length l1)) (l1 ++ id :: l2)
  = l1 ++ l2.
Proof.
  rewrite take_app_length.
  replace (S (length l1)) with (length (l1 ++ [id])) by (rewrite length_app; simpl; lia).
  replace (l1 ++ id :: l2) with ((l1 ++ [id]) ++ l2) by (by rewrite <- app_assoc).
  by rewrite drop_app_length.
Qed.

(** ** The ignored-exceptions list *)

Section IgnoredExceptions.

Context {Response : Type}.
Implicit Types (l : Limiter Response) (id : Z).

Lemma addIgnoredExceptions_present l id :
  In id (ignoredExceptions l) -> addIgnoredExceptions id l = l.
Proof.
  intros Hin. unfold addIgnoredExceptions.
  destruct (ignoredExceptions l) as [| ex rest] eqn:Hids; [contradiction |].
  simpl length. simpl Nat.eqb. cbv iota.
  by rewrite (proj2 (rangeUntil_sameID id (ex :: rest)) Hin).
Qed.

Lemma addIgnoredExceptions_absent l id :
  ~ In id (ignoredExceptions l) ->
  addIgnoredExceptions id l = setIgnoredExceptions (ignoredExceptions l ++ [id]) l.
Proof.
  intros Hnot. unfold addIgnoredExceptions.
  destruct (length (ignoredExceptions l) =? 0)%nat; [reflexivity |].
  destruct (fst (rangeUntil _ _)) eqn:Hscan; [| reflexivity].
  apply rangeUntil_sameID in Hscan. contradiction.
Qed.

Lemma addIgnoredExceptions_In l id :
  In id (ignoredExceptions (addIgnoredExceptions id l)).
Proof.
  destruct (In_dec Z.eq_dec id (ignoredExceptions l)) as [Hin | Hnot].
  - by rewrite addIgnoredExceptions_present.
  - rewrite addIgnoredExceptions_absent by assumption. simpl.
    apply in_or_app. right. simpl. auto.
Qed.

Lemma removeFromIgnoredExceptions_absent l id :
  ~ In id (ignoredExceptions l) -> removeFromIgnoredExceptions id l = l.
Proof.
  intros Hnot. unfold removeFromIgnoredExceptions.
  destruct (length (ignoredExceptions l) =? 0)%nat; [reflexivity |].
  pose proof (firstIndex_spec id (ignoredExceptions l)) as Hspec.
  destruct (firstIndex id (ignoredExceptions l)) as [i |]; [| reflexivity].
  destruct Hspec as (l1 & l2 & Heq & _ & _). exfalso. apply Hnot.
  rewrite Heq. apply in_or_app. right. simpl. auto.
Qed.

Lemma removeFromIgnoredExceptions_first l id (l1 l2 : list Z) :
  ignoredExceptions l = l1 ++ id :: l2 -> ~ In id l1 ->
  removeFromIgnoredExceptions id l = setIgnoredExceptions (l1 ++ l2) l.
Proof.
  intros Heq Hnot. unfold removeFromIgnoredExceptions.
  pose proof (firstIndex_spec id (ignoredExceptions l)) as Hspec.
  rewrite Heq in *.
  destruct (length (l1 ++ id :: l2) =? 0)%nat eqn:Hlen.
  { apply Nat.eqb_eq in Hlen. rewrite length_app in Hlen. simpl in Hlen. lia. }
  destruct (firstIndex id (l1 ++ id :: l2)) as [i |].
  - destruct Hspec as (a1 & a2 & Hsplit & Hnota & <-).
    destruct (first_occurrence_unique id l1 l2 a1 a2 Hsplit Hnot Hnota) as [<- <-].
    by rewrite cut_at_first.
  - exfalso. apply Hspec. apply in_or_app. right. simpl. auto.
Qed.

(** Both operations write the ignored-exceptions list and nothing else. *)
Lemma ignored_ops_frame l id :
  let after := fun l' : Limiter Response =>
    mutex l' = mutex l /\ userMap l' = userMap l /\
    exceptionIDs l' = exceptionIDs l /\ timeout l' = timeout l /\
    punishment l' = punishment l /\ maxTimeout l' = maxTimeout l in
  after (addIgnoredExceptions id l) /\ after (removeFromIgnoredExceptions id l).
Proof.
  simpl. unfold addIgnoredExceptions, removeFromIgnoredExceptions.
  destruct (length (ignoredExceptions l) =? 0)%nat; simpl; [auto 10 |].
  destruct (fst (rangeUntil _ _)), (firstIndex id (ignoredExceptions l));
    simpl; auto 10.
Qed.

Lemma addIgnoredExceptions_NoDup l id :
  NoDup (ignoredExceptions l) -> NoDup (ignoredExceptions (addIgnoredExceptions id l)).
Proof.
  intros Hnd.
  destruct (In_dec Z.eq_dec id (ignoredExceptions l)) as [Hin | Hnot].
  - by rewrite addIgnoredExceptions_present.
  - rewrite addIgnoredExceptions_absent by assumption. simpl.
    apply NoDup_app. split; [assumption |]. split; [| apply NoDup_singleton].
    intros x Hx Hx'. apply list_elem_of_singleton in Hx'. subst x.
    apply Hnot. by apply list_elem_of_In.
Qed.

Lemma removeFromIgnoredExceptions_NoDup l id :
  NoDup (ignoredExceptions l) ->
  NoDup (ignoredExceptions (removeFromIgnoredExceptions id l)).
Proof.
  intros Hnd.
  pose proof (firstIndex_spec id (ignoredExceptions l)) as Hspec.
  destruct (firstIndex id (ignoredExceptions l)) as [i |] eqn:Hidx.
  - destruct Hspec as (l1 & l2 & Heq & Hnot & _).
    rewrite (removeFromIgnoredExceptions_first l id l1 l2 Heq Hnot). simpl.
    rewrite Heq in Hnd. apply NoDup_app in Hnd as (Hl1 & Hdisj & Hl2).
    apply NoDup_cons in Hl2 as (_ & Hl2).
    apply NoDup_app. split; [assumption |]. split; [| assumption].
    intros x Hx Hx'. apply (Hdisj x Hx). by apply list_elem_of_further.
  - by rewrite removeFromIgnoredExceptions_absent.
Qed.

(** C9: [addIgnoredExceptions] leaves the list as it is when the id is
    present and appends it once otherwise; [removeFromIgnoredExceptions]
    removes the first occurrence and leaves the list as it is when the id
    is absent; so each of them, and every run of them, keeps a list
    without duplicates free of duplicates. *)
Theorem ignoredExceptions_no_duplicates l id :
  (In id (ignoredExceptions l) -> addIgnoredExceptions id l = l) /\
  (~ In id (ignoredExceptions l) ->
   ignoredExceptions (addIgnoredExceptions id l) = ignoredExceptions l ++ [id]) /\
  (forall l1 l2 : list Z,
     ignoredExceptions l = l1 ++ id :: l2 -> ~ In id l1 ->
     ignoredExceptions (removeFromIgnoredExceptions id l) = l1 ++ l2) /\
  (~ In id (ignoredExceptions l) -> removeFromIgnoredExceptions id l = l) /\
  (NoDup (ignoredExceptions l) ->
   NoDup (ignoredExceptions (addIgnoredExceptions id l)) /\
   NoDup (ignoredExceptions (removeFromIgnoredExceptions id l)) /\
   forall ops : list IgnoredOp,
     NoDup (ignoredExceptions (applyIgnoredOps ops l))).
Proof.
  split; [apply addIgnoredExceptions_present |].
  split; [intros Hnot; by rewrite addIgnoredExceptions_absent |].
  split; [intros l1 l2 Heq Hnot;
          by rewrite (removeFromIgnoredExceptions_first l id l1 l2) |].
  split; [apply removeFromIgnoredExceptions_absent |].
  intros Hnd.
  split; [by apply addIgnoredExceptions_NoDup |].
  split; [by apply removeFromIgnoredExceptions_NoDup |].
  intros ops. revert l Hnd. unfold applyIgnoredOps.
  induction ops as [| op ops IH]; intros l Hnd; simpl; [assumption |].
  apply IH. destruct op as [k | k]; simpl.
  - by apply addIgnoredExceptions_NoDup.
  - by apply removeFromIgnoredExceptions_NoDup.
Qed.

End IgnoredExceptions.

(** The two operations on the list [1; 2; 3]. *)
Lemma ignoredExceptions_no_duplicates_witness :
  addIgnoredExceptions 2 ignoring123 = ignoring123 /\
  ignoredExceptions (addIgnoredExceptions 4 ignoring123) = [1; 2; 3; 4] /\
  ignoredExceptions (removeFromIgnoredExceptions 2 ignoring123) = [1; 3] /\
  removeFromIgnoredExceptions 4 ignoring123 = ignoring123 /\
  NoDup (ignoredExceptions
           (applyIgnoredOps [AddIgnored 4; RemoveIgnored 1; AddIgnored 4] ignoring123)).
Proof.
  assert (Hin : In 2 (ignoredExceptions ignoring123)) by (simpl; auto).
  assert (Hnot : ~ In 4 (ignoredExceptions ignoring123))
    by (simpl; intros [H | [H | [H | H]]]; try discriminate H; exact H).
  assert (Hnd : NoDup (ignoredExceptions ignoring123)).
  { simpl. repeat (apply NoDup_cons_2; [rewrite list_elem_of_In; simpl; lia |]).
    apply NoDup_nil_2. }
  pose proof (ignoredExceptions_no_duplicates ignoring123 2) as (Hadd & _ & Hrem & _).
  pose proof (ignoredExceptions_no_duplicates ignoring123 4)
    as (_ & Hadd' & _ & Hrem' & Hkeep).
  split; [exact (Hadd Hin) |].
  split; [exact (Hadd' Hnot) |].
  split; [apply (Hrem [1] [3]); [reflexivity | simpl; lia] |].
  split; [exact (Hrem' Hnot) |].
  apply (Hkeep Hnd).
Defined.

(** ** Installing a custom override *)

Section CustomIgnore.

Context {Response : Type}.
Implicit Types (l : Limiter Response) (id : Z) (now : Time.t) (d : Duration.t).

Lemma lookupStatus_store l id (s : UserStatus) (m : gmap Z (option UserStatus)) :
  lookupStatus id (setUserMap (Some (<[id := Some s]> m)) l) = Some s.
Proof. unfold lookupStatus. simpl. by rewrite lookup_insert_eq. Qed.

Lemma lookupStatus_store_other l id id' (s : UserStatus)
    (m : gmap Z (option UserStatus)) :
  id <> id' -> userMap l = Some m ->
  lookupStatus id' (setUserMap (Some (<[id := Some s]> m)) l) = lookupStatus id' l.
Proof.
  intros Hne Hm. unfold lookupStatus. simpl. rewrite Hm.
  by rewrite lookup_insert_ne.
Qed.

(** The closed form of [AddCustomIgnore] on a live registry. *)
Lemma AddCustomIgnore_live now id d (ie : bool) l (m : gmap Z (option UserStatus)) :
  mutex l <> None -> userMap l = Some m ->
  AddCustomIgnore now id d ie l =
    let status := setCustom (Some (mkCustomIgnore now d ie))
                    (default newUserStatus (lookupStatus id l)) in
    let l1 := setUserMap (Some (<[id := Some status]> m)) l in
    Ok (if ie then addIgnoredExceptions id l1 else l1).
Proof.
  intros Hmu Hm. unfold AddCustomIgnore, Lock, Unlock, withMutex, storeStatus.
  destruct (mutex l) as [mu |] eqn:Hmutex; [| contradiction].
  rewrite Hm. cbn.
  destruct (lookupStatus id l) as [s |]; cbn; destruct ie; cbn.
  all: try (match goal with
            | |- context [mutex (addIgnoredExceptions ?k ?x)] =>
                destruct (ignored_ops_frame x k) as ((-> & _) & _); cbn
            end).
  all: rewrite ?Hmutex; reflexivity.
Qed.

(** C4, as amended: on a limiter whose lock and map are allocated,
    [AddCustomIgnore] returns normally; afterwards the status of [id]
    carries the override [{startTime = now, duration = d, ignoreException}],
    on the previous status when there was one and on a new zero status
    otherwise; the entries of other ids are kept; and with
    [ignoreExceptions] set, [id] is in the ignored-exceptions list: the
    list is the one before when [id] was in it, and has [id] appended
    otherwise. *)
Theorem AddCustomIgnore_spec now id d (ie : bool) l
    (m : gmap Z (option UserStatus)) :
  mutex l <> None -> userMap l = Some m ->
  exists l' : Limiter Response,
    AddCustomIgnore now id d ie l = Ok l' /\
    (exists status : UserStatus,
       lookupStatus id l' = Some status /\
       custom status = Some (mkCustomIgnore now d ie) /\
       status = setCustom (Some (mkCustomIgnore now d ie))
                  (default newUserStatus (lookupStatus id l)) /\
       userMap l' = Some (<[id := Some status]> m)) /\
    (lookupStatus id l = None ->
     lookupStatus id l' =
       Some (setCustom (Some (mkCustomIgnore now d ie)) newUserStatus)) /\
    (forall id' : Z, id' <> id -> lookupStatus id' l' = lookupStatus id' l) /\
    (ie = true -> In id (ignoredExceptions l')) /\
    (ie = false -> ignoredExceptions l' = ignoredExceptions l) /\
    (ie = true -> In id (ignoredExceptions l) ->
     ignoredExceptions l' = ignoredExceptions l) /\
    (ie = true -> ~ In id (ignoredExceptions l) ->
     ignoredExceptions l' = ignoredExceptions l ++ [id]).
Proof.
  intros Hmu Hm. rewrite (AddCustomIgnore_live now id d ie l m Hmu Hm). cbv zeta.
  set (status := setCustom _ (default newUserStatus (lookupStatus id l))).
  set (l1 := setUserMap (Some (<[id := Some status]> m)) l).
  assert (Hmap : userMap (if ie then addIgnoredExceptions id l1 else l1)
                 = Some (<[id := Some status]> m)).
  { destruct ie; [| reflexivity].
    destruct (ignored_ops_frame l1 id) as ((_ & -> & _) & _). reflexivity. }
  assert (Hlook : forall k, lookupStatus k (if ie then addIgnoredExceptions id l1 else l1)
                            = lookupStatus k l1).
  { intros k. unfold lookupStatus at 1. rewrite Hmap. reflexivity. }
  eexists. split; [reflexivity |].
  split; [| split; [| split; [| split; [| split; [| split]]]]].
  - exists status. rewrite Hlook. subst l1.
    rewrite lookupStatus_store. auto.
  - intros Hnone. rewrite Hlook. subst l1 status.
    rewrite lookupStatus_store, Hnone. reflexivity.
  - intros id' Hne. rewrite Hlook. subst l1.
    apply lookupStatus_store_other; [congruence | assumption].
  - intros ->. apply addIgnoredExceptions_In.
  - intros ->. reflexivity.
  - intros -> Hin. by rewrite (addIgnoredExceptions_present l1 id Hin).
  - intros -> Hnot. by rewrite (addIgnoredExceptions_absent l1 id Hnot).
Qed.

End CustomIgnore.

(** C4, the claim as stated fails: on a limiter that was never started, and
    on one that was stopped, the lock is nil and [AddCustomIgnore] panics
    without installing anything. *)
Lemma AddCustomIgnore_nil_lock_counterexample :
  AddCustomIgnore someInstant 7 Duration.Second true zeroLimiter
    = Panic NilPointerDereference /\
  mutex (Stop runningLimiter) = None /\
  AddCustomIgnore someInstant 7 Duration.Second true (Stop runningLimiter)
    = Panic NilPointerDereference.
Proof. split; [reflexivity | split; reflexivity]. Qed.

(** An override for the unseen id 7 on the running limiter. *)
Lemma AddCustomIgnore_spec_witness :
  exists l' : Limiter unit,
    AddCustomIgnore someInstant 7 0 true runningLimiter = Ok l' /\
    lookupStatus 7 l' =
      Some (setCustom (Some (mkCustomIgnore someInstant 0 true)) newUserStatus) /\
    In 7 (ignoredExceptions l').
Proof.
  destruct (AddCustomIgnore_spec someInstant 7 0 true runningLimiter ∅)
    as (l' & Hrun & _ & Hnew & _ & Hin & _).
  - discriminate.
  - reflexivity.
  - exists l'. split; [exact Hrun |]. split; [apply Hnew; reflexivity | apply Hin; reflexivity].
Defined.

(** ** The exception-ID list *)

Section ExceptionIDs.

Context {Response : Type}.
Implicit Types (l : Limiter Response) (id : Z).

Lemma IsInExceptionList_In l id :
  IsInExceptionList id l = true <-> In id (exceptionIDs l).
Proof.
  unfold IsInExceptionList.
  destruct (exceptionIDs l) as [| ex rest] eqn:Hids.
  - simpl. split; [discriminate | contradiction].
  - simpl length. simpl Nat.eqb. cbv iota. apply rangeUntil_sameID.
Qed.

(** C5, as amended: [AddExceptionID id] appends [id] to the exception-ID
    list without looking for it first, so afterwards the list holds [id]
    once more than before: once when it was absent, and in duplicate when
    it was already there. *)
Theorem AddExceptionID_spec l id :
  exceptionIDs (AddExceptionID [id] l) = exceptionIDs l ++ [id] /\
  count_occ Z.eq_dec (exceptionIDs (AddExceptionID [id] l)) id =
    S (count_occ Z.eq_dec (exceptionIDs l) id) /\
  IsInExceptionList id (AddExceptionID [id] l) = true /\
  (~ In id (exceptionIDs l) ->
   count_occ Z.eq_dec (exceptionIDs (AddExceptionID [id] l)) id = 1%nat).
Proof.
  assert (Hcount : count_occ Z.eq_dec (exceptionIDs (AddExceptionID [id] l)) id =
                   S (count_occ Z.eq_dec (exceptionIDs l) id)).
  { simpl. rewrite count_occ_app. simpl.
    destruct (Z.eq_dec id id); [lia | contradiction]. }
  split; [reflexivity |]. split; [exact Hcount |]. split.
  - apply IsInExceptionList_In. simpl. apply in_or_app. right. simpl. auto.
  - intros Hnot. rewrite Hcount.
    by rewrite (proj1 (count_occ_not_In Z.eq_dec (exceptionIDs l) id) Hnot).
Qed.

(** C10: [isException] is false on a nil message and on an empty
    exception-ID list, and [isExceptionQuery] is false on a nil callback
    query and on an empty exception-ID list; in each case no id comparison
    is evaluated. *)
Theorem exception_checks_absent_input l :
  isException None l = (false, 0%nat) /\
  isExceptionQuery None l = (false, 0%nat) /\
  (exceptionIDs l = [] ->
   forall (msg : option Message.t) (cq : option CallbackQuery.t),
     isException msg l = (false, 0%nat) /\
     isExceptionQuery cq l = (false, 0%nat)).
Proof.
  unfold isException, isExceptionQuery. split; [| split].
  - destruct (length (exceptionIDs l) =? 0)%nat; reflexivity.
  - destruct (length (exceptionIDs l) =? 0)%nat; reflexivity.
  - intros ->. simpl. auto.
Qed.

End ExceptionIDs.

(** C5, the claim as stated fails: adding 7 to the list [7] leaves the id in
    the list twice. *)
Lemma AddExceptionID_duplicate_counterexample :
  exceptionIDs exceptingSeven = [7] /\
  exceptionIDs (AddExceptionID [7] exceptingSeven) = [7; 7] /\
  count_occ Z.eq_dec (exceptionIDs (AddExceptionID [7] exceptingSeven)) 7 = 2%nat.
Proof. repeat split. Qed.

(** Adding 7 to the empty exception-ID list. *)
Lemma AddExceptionID_spec_witness :
  count_occ Z.eq_dec (exceptionIDs (AddExceptionID [7] runningLimiter)) 7 = 1%nat.
Proof.
  apply (proj2 (proj2 (proj2 (AddExceptionID_spec runningLimiter 7)))).
  simpl. tauto.
Defined.

(** With no exception ids, a message and a query from user 7 are not excepted. *)
Lemma exception_checks_absent_input_witness :
  isException (Some messageFromSeven) runningLimiter = (false, 0%nat) /\
  isExceptionQuery (Some queryFromSeven) runningLimiter = (false, 0%nat).
Proof.
  apply (proj2 (proj2 (exception_checks_absent_input runningLimiter))).
  reflexivity.
Defined.

(** On a list that holds the sender, the scan does evaluate comparisons. *)
Example isException_scans :
  isException (Some messageFromSeven) exceptingSeven = (true, 1%nat) /\
  isException (Some messageFromSeven) (AddExceptionID [9] (ClearAllExceptionIDs exceptingSeven))
    = (true, 2%nat).
Proof. split; reflexivity. Qed.

(** ** Stopping the limiter *)

Section Lifecycle.

Context {Response : Type}.
Implicit Types (l : Limiter Response) (id : Z) (now : Time.t).

Lemma registryInvariant_Start l :
  registryInvariant l -> registryInvariant (fst (Start l)).
Proof.
  unfold registryInvariant, Start. intros Hinv.
  destruct (isEnabled l); simpl; [exact Hinv |].
  destruct (mutex l) as [mu |] eqn:Hmu; simpl.
  - destruct (userMap l); simpl; rewrite Hmu; discriminate.
  - rewrite (Hinv eq_refl). simpl. discriminate.
Qed.

Lemma registryInvariant_Stop l :
  registryInvariant l -> registryInvariant (Stop l).
Proof.
  unfold registryInvariant, Stop. intros Hinv.
  destruct (isStopped l); [exact Hinv |]. simpl.
  destruct (mutex l) eqn:Hmu; simpl; [reflexivity |].
  intros _. auto.
Qed.

Lemma registryInvariant_AddCustomIgnore now id (d : Duration.t) (ie : bool)
    l (l' : Limiter Response) :
  AddCustomIgnore now id d ie l = Ok l' -> registryInvariant l' /\ mutex l' <> None.
Proof.
  intros Hrun.
  destruct (mutex l) as [mu |] eqn:Hmu.
  2: { unfold AddCustomIgnore, Lock, withMutex in Hrun.
       rewrite Hmu in Hrun. discriminate. }
  destruct (userMap l) as [m |] eqn:Hm.
  - rewrite (AddCustomIgnore_live now id d ie l m) in Hrun by congruence.
    cbv zeta in Hrun. injection Hrun as <-. unfold registryInvariant.
    destruct ie;
      [ match goal with
        | |- context [mutex (addIgnoredExceptions ?k ?x)] =>
            destruct (ignored_ops_frame x k) as ((-> & _) & _)
        end |];
      simpl; rewrite Hmu; split; discriminate.
  - unfold AddCustomIgnore, Lock, withMutex, lookupStatus, storeStatus in Hrun.
    rewrite Hmu, Hm in Hrun. cbn in Hrun. discriminate.
Qed.

(** After [Stop] on a limiter that was not stopped, the lock is nil. *)
Lemma Stop_releases_mutex l : isStopped l = false -> mutex (Stop l) = None.
Proof.
  unfold Stop. intros ->. simpl.
  destruct (mutex l) eqn:Hmu; simpl; [reflexivity | exact Hmu].
Qed.

Lemma Stop_disables l : isStopped l = false -> isEnabled (Stop l) = false.
Proof.
  unfold Stop. intros ->. simpl. destruct (mutex l); reflexivity.
Qed.

(** C8: [Stop] on a limiter that is not stopped clears [isEnabled], sets
    [isStopped], and leaves the map and the lock nil, while every
    configuration field keeps its value. *)
Theorem Stop_spec l :
  isStopped l = false -> registryInvariant l ->
  isEnabled (Stop l) = false /\ isStopped (Stop l) = true /\
  userMap (Stop l) = None /\ mutex (Stop l) = None /\
  timeout (Stop l) = timeout l /\
  punishment (Stop l) = punishment l /\
  maxCount (Stop l) = maxCount l /\
  maxTimeout (Stop l) = maxTimeout l /\
  TextOnly (Stop l) = TextOnly l /\
  msgHandler (Stop l) = msgHandler l /\
  exceptionIDs (Stop l) = exceptionIDs l /\
  ignoredExceptions (Stop l) = ignoredExceptions l /\
  conditions (Stop l) = conditions l /\
  exceptions (Stop l) = exceptions l /\
  triggers (Stop l) = triggers l.
Proof.
  unfold Stop, registryInvariant. intros -> Hinv. simpl.
  destruct (mutex l) eqn:Hmu; simpl.
  - repeat split.
  - rewrite Hmu, (Hinv eq_refl). repeat split.
Qed.

(** [Stop] on a stopped limiter does nothing. *)
Lemma Stop_stopped l : isStopped l = true -> Stop l = l.
Proof. unfold Stop. by intros ->. Qed.

(** C6, the methods that take the lock fault once the lock is nil:
    after [Stop], [GetStatus], [AddCustomIgnore] and [RemoveCustomIgnore]
    panic on the nil mutex, whereas the checker leaves its loop without a
    fault, both when it is entered after [Stop] and when [Stop] runs while
    it sleeps. *)
Theorem stopped_registry_faults l id now (d : Duration.t) (ie : bool) :
  isStopped l = false ->
  GetStatus id (Stop l) = Panic NilPointerDereference /\
  AddCustomIgnore now id d ie (Stop l) = Panic NilPointerDereference /\
  RemoveCustomIgnore id (Stop l) = Panic NilPointerDereference /\
  (forall asleep : Limiter Response -> Limiter Response,
     checkerIteration asleep now (Stop l) = Ok (LoopEnded (Stop l))) /\
  (isEnabled l = true ->
   checkerIteration Stop now l =
     Ok (Returned (maxTimeout (checkerInterval l)) (Stop (checkerInterval l)))).
Proof.
  intros Hrun. pose proof (Stop_releases_mutex l Hrun) as Hmu.
  unfold GetStatus, AddCustomIgnore, RemoveCustomIgnore, RLock, Lock, withMutex.
  rewrite Hmu. cbn.
  split; [reflexivity |]. split; [reflexivity |]. split; [reflexivity |]. split.
  - intros asleep. unfold checkerIteration.
    rewrite (Stop_disables l Hrun). reflexivity.
  - intros Hen. unfold checkerIteration. rewrite Hen, Hrun. cbn.
    assert (Hrun' : isStopped (checkerInterval l) = false).
    { unfold checkerInterval. destruct (_ <? _); exact Hrun. }
    rewrite (Stop_releases_mutex _ Hrun').
    destruct (userMap (Stop (checkerInterval l))); reflexivity.
Qed.

End Lifecycle.

(** [Stop] on the running limiter. *)
Lemma Stop_spec_witness :
  isEnabled (Stop runningLimiter) = false /\ isStopped (Stop runningLimiter) = true /\
  userMap (Stop runningLimiter) = None /\ mutex (Stop runningLimiter) = None /\
  timeout (Stop runningLimiter) = Duration.seconds 10 /\
  punishment (Stop runningLimiter) = Duration.seconds 30.
Proof.
  destruct (Stop_spec runningLimiter) as (H1 & H2 & H3 & H4 & H5 & H6 & _).
  - reflexivity.
  - unfold registryInvariant. discriminate.
  - rewrite H5, H6. repeat split; assumption.
Defined.

(** The three calls on the running limiter after [Stop]. *)
Lemma stopped_registry_faults_witness :
  GetStatus 1 (Stop runningLimiter) = Panic NilPointerDereference /\
  AddCustomIgnore someInstant 1 Duration.Second false (Stop runningLimiter)
    = Panic NilPointerDereference /\
  RemoveCustomIgnore 1 (Stop runningLimiter) = Panic NilPointerDereference.
Proof.
  destruct (stopped_registry_faults runningLimiter 1 someInstant Duration.Second false)
    as (H1 & H2 & H3 & _).
  - reflexivity.
  - auto.
Defined.

(** Before [Stop] the same calls return normally. *)
Example running_registry_answers :
  GetStatus 1 runningLimiter = Ok None /\
  RemoveCustomIgnore 1 runningLimiter = Ok runningLimiter /\
  returnsQuietly (AddCustomIgnore someInstant 1 Duration.Second false runningLimiter).
Proof. repeat split. Qed.

(** ** The checker's interval *)

Section Checker.

Context {Response : Type}.
Implicit Types (l : Limiter Response) (now : Time.t).

Lemma checkerInterval_flags l :
  isEnabled (checkerInterval l) = isEnabled l /\
  isStopped (checkerInterval l) = isStopped l /\
  mutex (checkerInterval l) = mutex l /\
  userMap (checkerInterval l) = userMap l /\
  punishment (checkerInterval l) = punishment l /\
  timeout (checkerInterval l) = timeout l.
Proof. unfold checkerInterval. destruct (_ <? _); repeat split. Qed.

Lemma checkerInterval_maxTimeout l :
  maxTimeout (checkerInterval l) =
    if maxTimeout l <? Duration.Second
    then Duration.add (Duration.add (punishment l) (timeout l)) Duration.Minute
    else maxTimeout l.
Proof. unfold checkerInterval. destruct (_ <? _); reflexivity. Qed.

(** An iteration never faults: the lock is taken only after the nil
    guard. *)
Lemma checkerIteration_quiet (asleep : Limiter Response -> Limiter Response) now l :
  returnsQuietly (checkerIteration asleep now l).
Proof.
  unfold checkerIteration. cbv zeta.
  destruct (isEnabled l && negb (isStopped l)); [| exact I].
  destruct (userMap (asleep (checkerInterval l))) as [m |]; [| exact I].
  destruct (mutex (asleep (checkerInterval l))) as [mu |] eqn:Hmu; [| exact I].
  destruct (size m =? 0)%nat; [exact I |].
  unfold Lock, Unlock, withMutex. cbn. rewrite ?Hmu. exact I.
Qed.

(** An iteration of a running limiter sleeps for the corrected interval,
    whatever happens while it sleeps. *)
Lemma checkerIteration_sleeps (asleep : Limiter Response -> Limiter Response) now l :
  isEnabled l = true -> isStopped l = false ->
  exists it : Iteration,
    checkerIteration asleep now l = Ok it /\
    sleptOf it = Some (maxTimeout (checkerInterval l)).
Proof.
  intros Hen Hrun. unfold checkerIteration. rewrite Hen, Hrun. cbv zeta. simpl.
  destruct (userMap (asleep (checkerInterval l))) as [m |]; [| eauto].
  destruct (mutex (asleep (checkerInterval l))) as [mu |] eqn:Hmu; [| eauto].
  destruct (size m =? 0)%nat; [eauto |].
  unfold Lock, Unlock, withMutex. cbn. rewrite ?Hmu. eauto.
Qed.

(** C7, as amended: an iteration of the checker on a running limiter
    whose interval is below one second first resets the interval to
    [punishment + timeout + 1 minute] and sleeps for that; the interval
    slept is at least one second whenever that default is, in particular
    when punishment and window are not negative and the sum does not
    overflow. *)
Theorem checker_interval_spec (asleep : Limiter Response -> Limiter Response) now l :
  isEnabled l = true -> isStopped l = false ->
  exists (it : Iteration) (slept : Duration.t),
    checkerIteration asleep now l = Ok it /\
    sleptOf it = Some slept /\
    (maxTimeout l < Duration.Second ->
     maxTimeout (checkerInterval l) =
       Duration.add (Duration.add (punishment l) (timeout l)) Duration.Minute /\
     slept =
       Duration.add (Duration.add (punishment l) (timeout l)) Duration.Minute) /\
    (Duration.Second <= maxTimeout l -> slept = maxTimeout l) /\
    (Duration.Second <=
       Duration.add (Duration.add (punishment l) (timeout l)) Duration.Minute ->
     Duration.Second <= slept) /\
    (0 <= punishment l -> 0 <= timeout l ->
     Duration.inRange (punishment l + timeout l + Duration.Minute) ->
     Duration.Second <= slept).
Proof.
  intros Hen Hrun.
  destruct (checkerIteration_sleeps asleep now l Hen Hrun) as (it & Hit & Hslept).
  exists it, (maxTimeout (checkerInterval l)).
  split; [exact Hit |]. split; [exact Hslept |].
  rewrite checkerInterval_maxTimeout.
  destruct (Z.ltb_spec (maxTimeout l) Duration.Second) as [Hlt | Hge].
  - split; [auto |]. split; [lia |]. split; [auto |].
    intros Hp Ht Hrange.
    assert (Hrange' : Duration.inRange (punishment l + timeout l)).
    { revert Hrange. unfold Duration.inRange, Duration.minDuration,
        Duration.maxDuration, Duration.Minute, Duration.Second,
        Duration.Millisecond, Duration.Microsecond, Duration.Nanosecond. lia. }
    rewrite (add_small _ _ Hrange'), (add_small _ _ Hrange).
    unfold Duration.Minute, Duration.Second, Duration.Millisecond,
      Duration.Microsecond, Duration.Nanosecond. lia.
  - split; [lia |]. split; [auto |]. split; auto.
Qed.

End Checker.

(** C7, the claim as stated fails: with a punishment of minus two minutes
    and no interval set, the checker resets the interval to minus one minute
    and sleeps for that, which is below one second. *)
Lemma checker_negative_interval_counterexample :
  punishment negativePunishment = - (2 * Duration.Minute) /\
  maxTimeout negativePunishment < Duration.Second /\
  checkerIteration (fun l => l) someInstant negativePunishment =
    Ok (Continued (- Duration.Minute) (checkerInterval negativePunishment)) /\
  - Duration.Minute < Duration.Second.
Proof. vm_compute. repeat split. Qed.

(** The running limiter has no interval set: the checker sleeps 100s. *)
Lemma checker_interval_spec_witness :
  exists (it : Iteration) (slept : Duration.t),
    checkerIteration (fun l => l) someInstant runningLimiter = Ok it /\
    sleptOf it = Some slept /\
    slept = Duration.seconds 100 /\ Duration.Second <= slept.
Proof.
  destruct (checker_interval_spec (fun l => l) someInstant runningLimiter)
    as (it & slept & Hit & Hslept & Hreset & _ & _ & Hbound).
  - reflexivity.
  - reflexivity.
  - exists it, slept. split; [exact Hit |]. split; [exact Hslept |]. split.
    + apply Hreset. vm_compute. reflexivity.
    + apply Hbound; vm_compute; try discriminate. split; discriminate.
Defined.

(** ** The sweep *)

Section Sweep.

Context {Response : Type}.
Implicit Types (l : Limiter Response) (now : Time.t).

(** The sweep keeps, unchanged, an entry that was seen before and is
    limited or under an active override. *)
Lemma sweep_keeps_held now l (m : gmap Z (option UserStatus)) (id : Z)
    (s : UserStatus) :
  m !! id = Some (Some s) -> Time.IsZero (Last s) = false ->
  limited s = true \/ activeOverride now s ->
  omap (sweepEntry now l) m !! id = Some (Some s).
Proof.
  intros Hm Hnz Hheld. rewrite sweep_lookup, Hm.
  destruct (fst (canBeDeleted now l s)) eqn:Hd; [| reflexivity].
  apply canBeDeleted_iff in Hd as [Hz | (_ & Hlim & Hov)].
  - congruence.
  - destruct Hheld; [congruence | contradiction].
Qed.

(** The sweep deletes an entry that is stale, not limited and not under an
    active override, and every entry that was never stamped. *)
Lemma sweep_deletes_evictable now l (m : gmap Z (option UserStatus)) (id : Z)
    (s : UserStatus) :
  m !! id = Some (Some s) -> evictable now l s ->
  omap (sweepEntry now l) m !! id = None.
Proof.
  intros Hm Hev. rewrite sweep_lookup, Hm.
  by rewrite (proj2 (canBeDeleted_iff now l s) Hev).
Qed.

End Sweep.

(** An override installed on an id that was never seen is gone after the
    next sweep, although it has no expiry. *)
Example override_on_unseen_id_is_swept :
  exists l1 l2 : Limiter unit,
    AddCustomIgnore someInstant 7 0 false runningLimiter = Ok l1 /\
    lookupStatus 7 l1 = Some overriddenFresh /\
    checkerIteration (fun l => l) someInstant l1 =
      Ok (Continued (Duration.seconds 100) l2) /\
    lookupStatus 7 l2 = None.
Proof.
  eexists _, _. split; [vm_compute; reflexivity |].
  split; [vm_compute; reflexivity |].
  split; [vm_compute; reflexivity |].
  vm_compute. reflexivity.
Qed.

(** ** The checker loop *)

Section CheckerLoop.

Context {Response : Type}.
Implicit Types (l : Limiter Response) (now : Time.t).

(** The loop never faults, whatever the other goroutines do while it
    sleeps. *)
Lemma checker_quiet (asleep : list (Limiter Response -> Limiter Response)) now l :
  returnsQuietly (checker asleep now l).
Proof.
  revert now l. induction asleep as [| env rest IH]; intros now l; simpl; [exact I |].
  pose proof (checkerIteration_quiet env now l) as Hq.
  destruct (checkerIteration env now l) as [it | e]; [| contradiction]. cbn.
  destruct it as [l' | slept l' | slept l']; try exact I.
  specialize (IH (afterSleep now slept) l').
  destruct (checker rest (afterSleep now slept) l') as [r | e]; [exact I | contradiction].
Qed.

(** The loop is not entered on a limiter that is disabled or stopped. *)
Lemma checker_not_running (asleep : list (Limiter Response -> Limiter Response)) now l :
  isEnabled l && negb (isStopped l) = false ->
  checker asleep now l = Ok ([], l).
Proof.
  intros Hoff. destruct asleep as [| env rest]; [reflexivity |].
  simpl. unfold checkerIteration. rewrite Hoff. reflexivity.
Qed.

End CheckerLoop.

(** The running limiter, left alone for one sleep and stopped during the
    second: the checker sleeps twice for 100s and returns. *)
Example checker_until_Stop :
  checker [fun l => l; Stop; fun l => l] someInstant runningLimiter =
    Ok ([Duration.seconds 100; Duration.seconds 100],
        Stop (SetDefaultInterval runningLimiter)).
Proof. vm_compute. reflexivity. Qed.

(** ** Starting and restarting *)

Section Restart.

Context {Response : Type}.
Implicit Types (l : Limiter Response) (id : Z).

Lemma sameConfig_refl l : sameConfig l l.
Proof. unfold sameConfig. repeat split. Qed.

Lemma sameConfig_trans l (l1 l2 : Limiter Response) :
  sameConfig l l1 -> sameConfig l1 l2 -> sameConfig l l2.
Proof.
  unfold sameConfig.
  intros (-> & -> & -> & -> & -> & -> & -> & -> & -> & -> & ->). auto.
Qed.

Lemma Stop_sameConfig l : sameConfig l (Stop l).
Proof.
  unfold Stop. destruct (isStopped l); [apply sameConfig_refl |].
  simpl. destruct (mutex l); unfold sameConfig; repeat split.
Qed.

Lemma Start_sameConfig l : sameConfig l (fst (Start l)).
Proof.
  unfold Start. destruct (isEnabled l); [apply sameConfig_refl |].
  destruct (mutex l); simpl; destruct (userMap l); simpl;
    unfold sameConfig; repeat split.
Qed.

Lemma Start_registry l :
  isEnabled l = false ->
  mutex (fst (Start l)) = Some (default newRWMutex (mutex l)) /\
  userMap (fst (Start l)) = Some (default ∅ (userMap l)).
Proof.
  unfold Start. intros ->.
  destruct (mutex l) as [[] |] eqn:Hmu; simpl;
    destruct (userMap l) eqn:Hmap; simpl; rewrite ?Hmu, ?Hmap; auto.
Qed.

(** X1: [Start] on an enabled limiter changes nothing and spawns no
    checker; on a limiter that is not enabled it spawns one checker, sets
    [isEnabled], clears [isStopped], allocates the lock and the map where
    they are nil, keeps a map that is already there, and keeps the
    configuration. *)
Theorem Start_spec l :
  (isEnabled l = true -> Start l = (l, false)) /\
  (isEnabled l = false ->
   snd (Start l) = true /\
   isEnabled (fst (Start l)) = true /\ isStopped (fst (Start l)) = false /\
   mutex (fst (Start l)) <> None /\
   userMap (fst (Start l)) = Some (default ∅ (userMap l)) /\
   sameConfig l (fst (Start l))).
Proof.
  split.
  - unfold Start. intros ->. reflexivity.
  - intros Hoff. destruct (Start_registry l Hoff) as [Hmu Hmap].
    split; [unfold Start; rewrite Hoff; reflexivity |].
    split; [unfold Start; rewrite Hoff; reflexivity |].
    split; [unfold Start; rewrite Hoff; reflexivity |].
    split; [rewrite Hmu; discriminate |].
    split; [exact Hmap | apply Start_sameConfig].
Qed.

(** X2: [Stop] is idempotent. *)
Theorem Stop_idempotent l : Stop (Stop l) = Stop l.
Proof.
  destruct (isStopped l) eqn:Hs.
  - by rewrite !(Stop_stopped l Hs).
  - apply Stop_stopped. unfold Stop. rewrite Hs. simpl.
    destruct (mutex l); reflexivity.
Qed.

(** X3: [Start] after [Stop] gives a running limiter with a new, empty
    map: every status is gone, the configuration is the one before [Stop],
    and a new checker is spawned. *)
Theorem Start_after_Stop l :
  isStopped l = false -> registryInvariant l ->
  snd (Start (Stop l)) = true /\
  isEnabled (fst (Start (Stop l))) = true /\
  isStopped (fst (Start (Stop l))) = false /\
  mutex (fst (Start (Stop l))) <> None /\
  userMap (fst (Start (Stop l))) = Some ∅ /\
  (forall id, GetStatus id (fst (Start (Stop l))) = Ok None) /\
  sameConfig l (fst (Start (Stop l))).
Proof.
  intros Hrun Hinv.
  pose proof (Stop_disables l Hrun) as Hoff.
  pose proof (Stop_releases_mutex l Hrun) as Hmu.
  assert (Hmap : userMap (Stop l) = None).
  { unfold Stop, registryInvariant in *. rewrite Hrun. simpl.
    destruct (mutex l); simpl; auto. }
  destruct (Start_registry (Stop l) Hoff) as [Hmu' Hmap'].
  rewrite Hmu in Hmu'. rewrite Hmap in Hmap'. simpl in Hmu', Hmap'.
  split; [unfold Start; rewrite Hoff; reflexivity |].
  split; [unfold Start; rewrite Hoff; reflexivity |].
  split; [unfold Start; rewrite Hoff; reflexivity |].
  split; [rewrite Hmu'; discriminate |].
  split; [exact Hmap' |].
  split.
  - intros id. unfold GetStatus, RLock, RUnlock, withMutex, lookupStatus.
    rewrite Hmu', Hmap'. cbn. rewrite lookup_empty. reflexivity.
  - apply (sameConfig_trans l (Stop l)); [apply Stop_sameConfig | apply Start_sameConfig].
Qed.

End Restart.

(** [Start] on the zero-valued limiter, and again on the result. *)
Lemma Start_spec_witness :
  Start runningLimiter = (runningLimiter, false) /\
  snd (Start zeroLimiter) = true /\
  userMap (fst (Start zeroLimiter)) = Some ∅.
Proof.
  split.
  - apply (proj1 (Start_spec runningLimiter)). reflexivity.
  - destruct (proj2 (Start_spec zeroLimiter) eq_refl) as (H1 & _ & _ & _ & H5 & _).
    split; [exact H1 | exact H5].
Defined.

(** The populated limiter loses its entries across [Stop] and [Start]. *)
Lemma Start_after_Stop_witness :
  GetStatus 7 populatedLimiter = Ok (Some timedStatus) /\
  GetStatus 7 (fst (Start (Stop populatedLimiter))) = Ok None /\
  timeout (fst (Start (Stop populatedLimiter))) = Duration.seconds 10.
Proof.
  destruct (Start_after_Stop populatedLimiter) as (_ & _ & _ & _ & _ & Hget & Hcfg).
  - reflexivity.
  - unfold registryInvariant. discriminate.
  - split; [vm_compute; reflexivity |]. split; [apply Hget |].
    destruct Hcfg as (-> & _). reflexivity.
Defined.

(** ** Membership in the id lists *)

Lemma rangeUntil_existsb (test : Z -> Scan) (ids : list Z) :
  fst (rangeUntil test ids) = existsb (fun ex => fst (test ex)) ids.
Proof.
  induction ids as [| ex rest IH]; simpl; [reflexivity |].
  destruct (fst (test ex)); simpl; [reflexivity | exact IH].
Qed.

(** A scan evaluates at most [k] comparisons per entry when each test
    does. *)
Lemma rangeUntil_cost (test : Z -> Scan) (k : nat) (ids : list Z) :
  (forall ex, (snd (test ex) <= k)%nat) ->
  (snd (rangeUntil test ids) <= k * length ids)%nat.
Proof.
  intros Hk. induction ids as [| ex rest IH]; simpl; [lia |].
  specialize (Hk ex). destruct (fst (test ex)); simpl; lia.
Qed.

Lemma matchesMessage_listed (m : Message.t) (ids : list Z) :
  fst (rangeUntil (matchesMessage m) ids) = true <-> messageListed ids m.
Proof.
  rewrite rangeUntil_existsb, existsb_exists. unfold messageListed, matchesMessage.
  split.
  - intros (ex & Hin & Htest). destruct (Message.From m) as [u |].
    + unfold orElse, sameID in Htest. simpl in Htest.
      destruct (Z.eqb_spec ex (User.Id u)) as [-> | Hne].
      * right. eauto.
      * simpl in Htest. apply Z.eqb_eq in Htest. subst ex. by left.
    + simpl in Htest. apply Z.eqb_eq in Htest. subst ex. by left.
  - intros [Hin | (u & Hu & Hin)].
    + exists (Chat.Id (Message.Chat m)). split; [assumption |].
      destruct (Message.From m) as [u |]; unfold orElse, sameID; simpl.
      * destruct (_ =? User.Id u); simpl; [reflexivity | apply Z.eqb_refl].
      * apply Z.eqb_refl.
    + exists (User.Id u). split; [assumption |]. rewrite Hu.
      unfold orElse, sameID. simpl. by rewrite Z.eqb_refl.
Qed.

Lemma matchesQuery_listed (q : CallbackQuery.t) (ids : list Z) :
  fst (rangeUntil (matchesQuery q) ids) = true <-> queryListed ids q.
Proof.
  rewrite rangeUntil_existsb, existsb_exists. unfold queryListed, matchesQuery.
  split.
  - intros (ex & Hin & Htest). unfold orElse, sameID in Htest. simpl in Htest.
    destruct (Z.eqb_spec ex (User.Id (CallbackQuery.From q))) as [-> | Hne].
    + by left.
    + destruct (CallbackQuery.Message q) as [m |]; simpl in Htest; [| discriminate].
      apply Z.eqb_eq in Htest. subst ex. right. eauto.
  - intros [Hin | (m & Hm & Hin)].
    + exists (User.Id (CallbackQuery.From q)). split; [assumption |].
      unfold orElse, sameID. simpl. by rewrite Z.eqb_refl.
    + exists (Chat.Id (Message.GetChat m)). split; [assumption |]. rewrite Hm.
      unfold orElse, sameID. simpl.
      destruct (_ =? User.Id _); simpl; [reflexivity | apply Z.eqb_refl].
Qed.

Lemma length_eqb_0_nil {A : Type} (xs : list A) :
  (length xs =? 0)%nat = true -> xs = [].
Proof. destruct xs; [reflexivity | discriminate]. Qed.

Section Membership.

Context {Response : Type}.
Implicit Types (l : Limiter Response) (id : Z).

(** X4: an id is in the exception list after [AddExceptionID ids] exactly
    when it was there before or is one of [ids]; after
    [ClearAllExceptionIDs] no id is; after [SetAsExceptionList ids] exactly
    the ids of [ids] are. *)
Theorem IsInExceptionList_after l id (ids : list Z) :
  (IsInExceptionList id (AddExceptionID ids l) = true <->
     IsInExceptionList id l = true \/ In id ids) /\
  IsInExceptionList id (ClearAllExceptionIDs l) = false /\
  (IsInExceptionList id (SetAsExceptionList ids l) = true <-> In id ids).
Proof.
  split; [| split].
  - rewrite !IsInExceptionList_In. simpl. apply in_app_iff.
  - reflexivity.
  - rewrite IsInExceptionList_In. reflexivity.
Qed.

(** X5: [isException] holds for a message exactly when the id of its chat,
    or of its sender when it has one, is in the exception-ID list; it agrees
    with [IsInExceptionList] on those ids and evaluates at most two
    comparisons per list entry. *)
Theorem isException_spec l (m : Message.t) :
  (fst (isException (Some m) l) = true <-> messageListed (exceptionIDs l) m) /\
  fst (isException (Some m) l) =
    IsInExceptionList (Chat.Id (Message.Chat m)) l ||
    match Message.From m with
    | Some u => IsInExceptionList (User.Id u) l
    | None => false
    end /\
  (snd (isException (Some m) l) <= 2 * length (exceptionIDs l))%nat.
Proof.
  assert (Hiff : fst (isException (Some m) l) = true <->
                 messageListed (exceptionIDs l) m).
  { unfold isException.
    destruct (length (exceptionIDs l) =? 0)%nat eqn:Hlen.
    - rewrite (length_eqb_0_nil _ Hlen). unfold messageListed. simpl.
      split; [discriminate | intros [[] | (u & _ & [])]].
    - apply matchesMessage_listed. }
  split; [exact Hiff |]. split.
  - apply eq_true_iff_eq. rewrite Hiff, orb_true_iff, IsInExceptionList_In.
    unfold messageListed. destruct (Message.From m) as [u |].
    + rewrite IsInExceptionList_In. split.
      * intros [Hc | (u' & Hu & Hin)]; [by left | right; congruence].
      * intros [Hc | Hin]; [by left | right; eauto].
    + split.
      * intros [Hc | (u' & Hu & _)]; [by left | discriminate].
      * intros [Hc | Hf]; [by left | discriminate].
  - unfold isException. destruct (length (exceptionIDs l) =? 0)%nat; [simpl; lia |].
    apply rangeUntil_cost. intros ex. unfold matchesMessage, orElse, sameID.
    destruct (Message.From m); simpl; [destruct (_ =? _); simpl; lia | lia].
Qed.

(** X6: [isExceptionQuery] holds for a callback query exactly when the id
    of its sender, or of the chat of the message it carries, is in the
    exception-ID list; [isExceptionCtx] decides by the callback query when
    the context has one and by the message otherwise. *)
Theorem isExceptionQuery_spec l (q : CallbackQuery.t) (ctx : Context.t) :
  (fst (isExceptionQuery (Some q) l) = true <-> queryListed (exceptionIDs l) q) /\
  (fst (isExceptionCtx ctx l) = true <->
     match Context.CallbackQuery ctx, Context.Message ctx with
     | Some cq, _ => queryListed (exceptionIDs l) cq
     | None, Some m => messageListed (exceptionIDs l) m
     | None, None => False
     end).
Proof.
  assert (Hq : forall cq, fst (isExceptionQuery (Some cq) l) = true <->
                          queryListed (exceptionIDs l) cq).
  { intros cq. unfold isExceptionQuery.
    destruct (length (exceptionIDs l) =? 0)%nat eqn:Hlen.
    - rewrite (length_eqb_0_nil _ Hlen). unfold queryListed. simpl.
      split; [discriminate | intros [[] | (m & _ & [])]].
    - apply matchesQuery_listed. }
  split; [apply Hq |].
  unfold isExceptionCtx. destruct (Context.CallbackQuery ctx) as [cq |]; [apply Hq |].
  destruct (Context.Message ctx) as [m |].
  - unfold isException.
    destruct (length (exceptionIDs l) =? 0)%nat eqn:Hlen.
    + rewrite (length_eqb_0_nil _ Hlen). unfold messageListed. simpl.
      split; [discriminate | intros [[] | (u & _ & [])]].
    + apply matchesMessage_listed.
  - unfold isException. destruct (_ =? _)%nat; simpl; split; (discriminate || contradiction).
Qed.

(** X7: [isIgnoredException] returns, for a message, whether the id of its
    chat or of its sender is in the ignored-exceptions list; for a nil
    message it returns false while the list is empty and dereferences nil
    once the list has an entry.  [isIgnoredExceptionQuery] does the same for
    callback queries. *)
Theorem isIgnoredException_spec l (m : Message.t) (q : CallbackQuery.t) :
  (exists r : Scan, isIgnoredException (Some m) l = Ok r /\
     (fst r = true <-> messageListed (ignoredExceptions l) m)) /\
  (exists r : Scan, isIgnoredExceptionQuery (Some q) l = Ok r /\
     (fst r = true <-> queryListed (ignoredExceptions l) q)) /\
  (ignoredExceptions l = [] ->
   isIgnoredException None l = Ok (false, 0%nat) /\
   isIgnoredExceptionQuery None l = Ok (false, 0%nat)) /\
  (ignoredExceptions l <> [] ->
   isIgnoredException None l = Panic NilPointerDereference /\
   isIgnoredExceptionQuery None l = Panic NilPointerDereference).
Proof.
  unfold isIgnoredException, isIgnoredExceptionQuery.
  destruct (length (ignoredExceptions l) =? 0)%nat eqn:Hlen.
  - rewrite (length_eqb_0_nil _ Hlen).
    split; [| split; [| split]].
    + eexists. split; [reflexivity |]. unfold messageListed. simpl.
      split; [discriminate | intros [[] | (u & _ & [])]].
    + eexists. split; [reflexivity |]. unfold queryListed. simpl.
      split; [discriminate | intros [[] | (u & _ & [])]].
    + auto.
    + intros Hne. contradiction.
  - split; [| split; [| split]].
    + eexists. split; [reflexivity | apply matchesMessage_listed].
    + eexists. split; [reflexivity | apply matchesQuery_listed].
    + intros Hnil. rewrite Hnil in Hlen. discriminate.
    + auto.
Qed.

(** X8: [runTriggers] invokes the non-nil triggers in the order in which
    they were registered: [AppendTriggerFuncs] adds its non-nil arguments
    after the ones already there, and [SetTriggerFuncs] replaces them. *)
Theorem runTriggers_order l (ts : list (option Response)) (t : Response) :
  runTriggers (AppendTriggerFuncs ts l) = runTriggers l ++ omap (fun x => x) ts /\
  runTriggers (AppendTriggerFunc (Some t) l) = runTriggers l ++ [t] /\
  runTriggers (AppendTriggerFunc None l) = runTriggers l /\
  runTriggers (SetTriggerFuncs ts l) = omap (fun x => x) ts /\
  runTriggers (SetTriggerFunc (Some t) l) = [t].
Proof.
  unfold runTriggers. simpl. rewrite !omap_app. simpl.
  rewrite app_nil_r. repeat split.
Qed.

End Membership.

(** The id lists at concrete limiters and messages. *)
Lemma IsInExceptionList_after_witness :
  IsInExceptionList 9 (AddExceptionID [9] exceptingSeven) = true /\
  IsInExceptionList 7 (AddExceptionID [9] exceptingSeven) = true /\
  IsInExceptionList 7 (SetAsExceptionList [7; 9] runningLimiter) = true.
Proof.
  destruct (IsInExceptionList_after exceptingSeven 9 [9]) as ((_ & Hadd) & _ & _).
  destruct (IsInExceptionList_after exceptingSeven 7 [9]) as ((_ & Hold) & _ & _).
  destruct (IsInExceptionList_after runningLimiter 7 [7; 9]) as (_ & _ & (_ & Hset)).
  split; [apply Hadd; right; simpl; auto |].
  split; [apply Hold; left; reflexivity |].
  apply Hset. simpl. auto.
Defined.

Lemma isException_spec_witness :
  fst (isException (Some messageFromSeven) exceptingSeven) = true /\
  fst (isException (Some anonymousMessage) (SetAsExceptionList [9] exceptingSeven)) = true.
Proof.
  destruct (isException_spec exceptingSeven messageFromSeven) as ((_ & Hsender) & _).
  destruct (isException_spec (SetAsExceptionList [9] exceptingSeven) anonymousMessage)
    as ((_ & Hchat) & _).
  split.
  - apply Hsender. right. exists (User.mk 7). simpl. auto.
  - apply Hchat. left. simpl. auto.
Defined.

Lemma isExceptionQuery_spec_witness :
  fst (isExceptionQuery (Some bareQuery) exceptingSeven) = true /\
  fst (isExceptionCtx (Context.mk (Some bareQuery) (Some anonymousMessage))
         exceptingSeven) = true.
Proof.
  destruct (isExceptionQuery_spec exceptingSeven bareQuery
              (Context.mk (Some bareQuery) (Some anonymousMessage)))
    as ((_ & Hq) & (_ & Hctx)).
  split.
  - apply Hq. left. simpl. auto.
  - apply Hctx. left. simpl. auto.
Defined.

Lemma isIgnoredException_spec_witness :
  (isIgnoredException None runningLimiter = Ok (false, 0%nat) /\
   isIgnoredExceptionQuery None runningLimiter = Ok (false, 0%nat)) /\
  (isIgnoredException None ignoring123 = Panic NilPointerDereference /\
   isIgnoredExceptionQuery None ignoring123 = Panic NilPointerDereference).
Proof.
  destruct (isIgnoredException_spec runningLimiter anonymousMessage bareQuery)
    as (_ & _ & Hempty & _).
  destruct (isIgnoredException_spec ignoring123 anonymousMessage bareQuery)
    as (_ & _ & _ & Hfull).
  split; [apply Hempty; reflexivity | apply Hfull; discriminate].
Defined.

(** ** Removing a custom override *)

Section RemoveCustomIgnore.

Context {Response : Type}.
Implicit Types (l : Limiter Response) (id : Z) (now : Time.t) (d : Duration.t).

Lemma setIgnoredExceptions_same l :
  setIgnoredExceptions (ignoredExceptions l) l = l.
Proof. by destruct l. Qed.

Lemma setUserMap_same l : setUserMap (userMap l) l = l.
Proof. by destruct l. Qed.

Lemma remove_after_add_ignored l id :
  ~ In id (ignoredExceptions l) ->
  removeFromIgnoredExceptions id (addIgnoredExceptions id l) = l.
Proof.
  intros Hnot. rewrite addIgnoredExceptions_absent by assumption.
  rewrite (removeFromIgnoredExceptions_first _ id (ignoredExceptions l) []);
    [| reflexivity | assumption].
  rewrite app_nil_r. by destruct l.
Qed.

Lemma remove_after_add_ignored_gone l id :
  NoDup (ignoredExceptions l) ->
  ~ In id (ignoredExceptions (removeFromIgnoredExceptions id (addIgnoredExceptions id l))).
Proof.
  intros Hnd.
  destruct (In_dec Z.eq_dec id (ignoredExceptions l)) as [Hin | Hnot].
  - rewrite addIgnoredExceptions_present by assumption.
    pose proof (firstIndex_spec id (ignoredExceptions l)) as Hspec.
    destruct (firstIndex id (ignoredExceptions l)) as [i |]; [| contradiction].
    destruct Hspec as (l1 & l2 & Heq & Hnot1 & _).
    rewrite (removeFromIgnoredExceptions_first l id l1 l2 Heq Hnot1). simpl.
    rewrite Heq in Hnd. apply NoDup_app in Hnd as (_ & _ & Hl2).
    apply NoDup_cons in Hl2 as (Hnot2 & _).
    rewrite in_app_iff. intros [H | H]; [contradiction |].
    apply Hnot2. by apply list_elem_of_In.
  - by rewrite remove_after_add_ignored.
Qed.

(** The closed form of [RemoveCustomIgnore] on an entry with an override. *)
Lemma RemoveCustomIgnore_live id l (m : gmap Z (option UserStatus))
    (s : UserStatus) (c : customIgnore) :
  mutex l <> None -> userMap l = Some m ->
  lookupStatus id l = Some s -> custom s = Some c ->
  RemoveCustomIgnore id l =
    Ok (setUserMap (Some (<[id := Some (setCustom None s)]> m))
          (if ignoreException c then removeFromIgnoredExceptions id l else l)).
Proof.
  intros Hmu Hm Hs Hc. unfold RemoveCustomIgnore, Lock, Unlock, withMutex.
  destruct (mutex l) as [mu |] eqn:Hmutex; [| contradiction].
  cbn. rewrite Hs, Hc. unfold storeStatus.
  destruct (ignoreException c).
  - destruct (ignored_ops_frame l id) as (_ & (Hmu' & Hm' & _)).
    rewrite Hm', Hm. cbn. rewrite Hmu', Hmutex. reflexivity.
  - rewrite Hm. cbn. rewrite Hmutex. reflexivity.
Qed.

Lemma RemoveCustomIgnore_noop id l :
  mutex l <> None ->
  (lookupStatus id l = None \/
   exists s : UserStatus, lookupStatus id l = Some s /\ custom s = None) ->
  RemoveCustomIgnore id l = Ok l.
Proof.
  intros Hmu Hcase. unfold RemoveCustomIgnore, Lock, Unlock, withMutex.
  destruct (mutex l) as [mu |] eqn:Hmutex; [| contradiction]. cbn.
  destruct Hcase as [-> | (s & -> & ->)]; rewrite ?Hmutex; reflexivity.
Qed.


(** X10: [RemoveCustomIgnore] after [AddCustomIgnore] leaves the status of
    [id] as it was before, without an override (a zero status when there
    was none), and the entries of other ids untouched.  The
    ignored-exceptions list is as before when [ignoreExceptions] was false
    or [id] was not in it, and in any case no longer holds [id] when it had
    no duplicates. *)
Theorem RemoveCustomIgnore_after_Add now id d (ie : bool) l
    (m : gmap Z (option UserStatus)) :
  mutex l <> None -> userMap l = Some m ->
  exists l1 l2 : Limiter Response,
    AddCustomIgnore now id d ie l = Ok l1 /\
    RemoveCustomIgnore id l1 = Ok l2 /\
    lookupStatus id l2 =
      Some (setCustom None (default newUserStatus (lookupStatus id l))) /\
    (forall id' : Z, id' <> id -> lookupStatus id' l2 = lookupStatus id' l) /\
    (ie = false \/ ~ In id (ignoredExceptions l) ->
     ignoredExceptions l2 = ignoredExceptions l) /\
    (ie = true -> NoDup (ignoredExceptions l) -> ~ In id (ignoredExceptions l2)) /\
    sameConfig (setIgnoredExceptions (ignoredExceptions l2) l) l2.
Proof.
  intros Hmu Hm.
  set (s0 := default newUserStatus (lookupStatus id l)).
  set (st := setCustom (Some (mkCustomIgnore now d ie)) s0).
  set (l0 := setUserMap (Some (<[id := Some st]> m)) l).
  set (l1 := if ie then addIgnoredExceptions id l0 else l0).
  assert (Hadd : AddCustomIgnore now id d ie l = Ok l1)
    by (rewrite (AddCustomIgnore_live now id d ie l m Hmu Hm); reflexivity).
  assert (Hframe : mutex l1 = mutex l /\ userMap l1 = Some (<[id := Some st]> m)).
  { subst l1. destruct ie; [| split; reflexivity].
    destruct (ignored_ops_frame l0 id) as ((-> & -> & _) & _). split; reflexivity. }
  destruct Hframe as [Hmu1 Hm1].
  assert (Hst : lookupStatus id l1 = Some st).
  { unfold lookupStatus. rewrite Hm1, lookup_insert_eq. reflexivity. }
  set (l2 := setUserMap (Some (<[id := Some (setCustom None s0)]> m))
               (if ie then removeFromIgnoredExceptions id l1 else l1)).
  assert (Hrem : RemoveCustomIgnore id l1 = Ok l2).
  { rewrite (RemoveCustomIgnore_live id l1 (<[id := Some st]> m) st
               (mkCustomIgnore now d ie)); try assumption; try reflexivity.
    - subst l2. simpl. by rewrite insert_insert_eq.
    - by rewrite Hmu1. }
  exists l1, l2. split; [exact Hadd |]. split; [exact Hrem |].
  assert (Hign : ignoredExceptions l2 =
                 if ie then ignoredExceptions
                              (removeFromIgnoredExceptions id (addIgnoredExceptions id l0))
                 else ignoredExceptions l).
  { subst l2 l1. destruct ie; reflexivity. }
  split; [| split; [| split; [| split]]].
  - subst l2. apply lookupStatus_store.
  - intros id' Hne. subst l2. unfold lookupStatus at 1. simpl.
    rewrite lookup_insert_ne by congruence. unfold lookupStatus. by rewrite Hm.
  - intros Hcase. rewrite Hign. destruct ie; [| reflexivity].
    destruct Hcase as [Hf | Hnot]; [discriminate |].
    rewrite remove_after_add_ignored; [reflexivity | exact Hnot].
  - intros -> Hnd. rewrite Hign. by apply remove_after_add_ignored_gone.
  - subst l2 l1. unfold sameConfig.
    destruct ie; simpl.
    + unfold removeFromIgnoredExceptions, addIgnoredExceptions.
      repeat (match goal with
              | |- context [if ?b then _ else _] => destruct b; simpl
              | |- context [match ?o with Some _ => _ | None => _ end] =>
                  destruct o; simpl
              end); repeat split.
    + repeat split.
Qed.

End RemoveCustomIgnore.

(** ** Replacing and undoing an override *)

Section ReplaceCustomIgnore.

Context {Response : Type}.
Implicit Types (l : Limiter Response) (id : Z) (now : Time.t) (d : Duration.t).

Lemma addIgnoredExceptions_setUserMap l id
    (v : option (gmap Z (option UserStatus))) :
  addIgnoredExceptions id (setUserMap v l) = setUserMap v (addIgnoredExceptions id l).
Proof.
  unfold addIgnoredExceptions. simpl.
  destruct (length (ignoredExceptions l) =? 0)%nat; [reflexivity |].
  destruct (fst (rangeUntil _ _)); reflexivity.
Qed.

(** What a call of [AddCustomIgnore] on a live registry leaves behind. *)
Lemma AddCustomIgnore_result now id d (ie : bool) l
    (m : gmap Z (option UserStatus)) :
  mutex l <> None -> userMap l = Some m ->
  exists l1 : Limiter Response,
    AddCustomIgnore now id d ie l = Ok l1 /\
    mutex l1 = mutex l /\
    userMap l1 =
      Some (<[id := Some (setCustom (Some (mkCustomIgnore now d ie))
                            (default newUserStatus (lookupStatus id l)))]> m) /\
    ignoredExceptions l1 =
      (if ie then ignoredExceptions (addIgnoredExceptions id l)
       else ignoredExceptions l) /\
    l1 = setUserMap (userMap l1) (if ie then addIgnoredExceptions id l else l).
Proof.
  intros Hmu Hm. eexists. split.
  - rewrite (AddCustomIgnore_live now id d ie l m Hmu Hm). reflexivity.
  - cbv zeta. destruct ie; [rewrite addIgnoredExceptions_setUserMap |]; simpl; auto.
    destruct (ignored_ops_frame l id) as ((-> & _) & _). auto.
Qed.

(** X11: when the id had a status without an override, and
    [ignoreExceptions] is false or the id is not in the ignored-exceptions
    list, [RemoveCustomIgnore] after [AddCustomIgnore] gives back the
    limiter exactly as it was. *)
Theorem RemoveCustomIgnore_undoes_Add now id d (ie : bool) l
    (m : gmap Z (option UserStatus)) (s : UserStatus) :
  mutex l <> None -> userMap l = Some m ->
  m !! id = Some (Some s) -> custom s = None ->
  ie = false \/ ~ In id (ignoredExceptions l) ->
  exists l1 : Limiter Response,
    AddCustomIgnore now id d ie l = Ok l1 /\ RemoveCustomIgnore id l1 = Ok l.
Proof.
  intros Hmu Hm Hid Hnone Hcase.
  assert (Hs : lookupStatus id l = Some s) by (unfold lookupStatus; by rewrite Hm, Hid).
  destruct (AddCustomIgnore_result now id d ie l m Hmu Hm)
    as (l1 & Hadd & Hmu1 & Hm1 & _ & Hl1).
  rewrite Hs in Hm1. simpl in Hm1.
  exists l1. split; [exact Hadd |].
  rewrite (RemoveCustomIgnore_live id l1 _
             (setCustom (Some (mkCustomIgnore now d ie)) s)
             (mkCustomIgnore now d ie) ltac:(by rewrite Hmu1) Hm1);
    [| unfold lookupStatus; by rewrite Hm1, lookup_insert_eq | reflexivity].
  f_equal. simpl. rewrite insert_insert_eq.
  assert (Hsame : setCustom None (setCustom (Some (mkCustomIgnore now d ie)) s) = s).
  { destruct s as [a b c o]. simpl in Hnone. subst o. reflexivity. }
  rewrite Hsame, (insert_id m id (Some s) Hid), <- Hm.
  assert (Hback : forall um,
             l1 = setUserMap um (if ie then addIgnoredExceptions id l else l) ->
             (if ie then removeFromIgnoredExceptions id l1 else l1)
             = setUserMap um l).
  { intros um ->. destruct ie; [| reflexivity].
    destruct Hcase as [Hf | Hnot]; [discriminate |].
    rewrite <- addIgnoredExceptions_setUserMap.
    by rewrite remove_after_add_ignored. }
  rewrite (Hback _ Hl1). by destruct l.
Qed.

(** X12: a second [AddCustomIgnore] replaces the override of the first:
    the status is the one the second call alone would leave.  The first
    call's entry in the ignored-exceptions list stays, also after a second
    call without [ignoreExceptions] and a [RemoveCustomIgnore]. *)
Theorem AddCustomIgnore_replaces now1 now2 id d1 d2 (ie1 ie2 : bool) l
    (m : gmap Z (option UserStatus)) :
  mutex l <> None -> userMap l = Some m ->
  exists l1 l2 : Limiter Response,
    AddCustomIgnore now1 id d1 ie1 l = Ok l1 /\
    AddCustomIgnore now2 id d2 ie2 l1 = Ok l2 /\
    lookupStatus id l2 =
      Some (setCustom (Some (mkCustomIgnore now2 d2 ie2))
              (default newUserStatus (lookupStatus id l))) /\
    (ie1 = true -> In id (ignoredExceptions l2)) /\
    (ie1 = true -> ie2 = false ->
     exists l3 : Limiter Response,
       RemoveCustomIgnore id l2 = Ok l3 /\ In id (ignoredExceptions l3)).
Proof.
  intros Hmu Hm.
  destruct (AddCustomIgnore_result now1 id d1 ie1 l m Hmu Hm)
    as (l1 & Hadd1 & Hmu1 & Hm1 & Hign1 & _).
  destruct (AddCustomIgnore_result now2 id d2 ie2 l1 _ ltac:(by rewrite Hmu1) Hm1)
    as (l2 & Hadd2 & Hmu2 & Hm2 & Hign2 & _).
  assert (Hs1 : lookupStatus id l1 =
                Some (setCustom (Some (mkCustomIgnore now1 d1 ie1))
                        (default newUserStatus (lookupStatus id l))))
    by (unfold lookupStatus at 1; by rewrite Hm1, lookup_insert_eq).
  rewrite Hs1 in Hm2. simpl in Hm2.
  assert (Hs2 : lookupStatus id l2 =
                Some (setCustom (Some (mkCustomIgnore now2 d2 ie2))
                        (default newUserStatus (lookupStatus id l))))
    by (unfold lookupStatus at 1; by rewrite Hm2, lookup_insert_eq).
  assert (Hin : ie1 = true -> In id (ignoredExceptions l2)).
  { intros ->. rewrite Hign2.
    assert (Hin1 : In id (ignoredExceptions l1))
      by (rewrite Hign1; apply addIgnoredExceptions_In).
    destruct ie2; [| exact Hin1].
    destruct (In_dec Z.eq_dec id (ignoredExceptions l1)) as [Hyes | Hno];
      [| contradiction].
    by rewrite addIgnoredExceptions_present. }
  exists l1, l2. split; [exact Hadd1 |]. split; [exact Hadd2 |].
  split; [exact Hs2 |]. split; [exact Hin |].
  intros H1 ->. eexists. split.
  - apply (RemoveCustomIgnore_live id l2 _ _ (mkCustomIgnore now2 d2 false)
             ltac:(by rewrite Hmu2, Hmu1) Hm2 Hs2). reflexivity.
  - simpl. exact (Hin H1).
Qed.

End ReplaceCustomIgnore.


Lemma RemoveCustomIgnore_after_Add_witness :
  exists l1 l2 : Limiter unit,
    AddCustomIgnore someInstant 5 Duration.Second true populatedLimiter = Ok l1 /\
    RemoveCustomIgnore 5 l1 = Ok l2 /\
    lookupStatus 5 l2 = Some newUserStatus /\
    lookupStatus 7 l2 = Some timedStatus /\
    ignoredExceptions l2 = [].
Proof.
  destruct (RemoveCustomIgnore_after_Add someInstant 5 Duration.Second true
              populatedLimiter (<[8 := None]> (<[7 := Some timedStatus]> ∅)))
    as (l1 & l2 & Hadd & Hrem & Hid & Hother & Hign & _).
  - discriminate.
  - reflexivity.
  - exists l1, l2. split; [exact Hadd |]. split; [exact Hrem |].
    split; [exact Hid |].
    split; [rewrite Hother by discriminate; reflexivity |].
    apply Hign. right. simpl. tauto.
Defined.

Lemma RemoveCustomIgnore_undoes_Add_witness :
  exists l1 : Limiter unit,
    AddCustomIgnore twoSecondsLater 7 Duration.Second true plainLimiter = Ok l1 /\
    RemoveCustomIgnore 7 l1 = Ok plainLimiter.
Proof.
  apply (RemoveCustomIgnore_undoes_Add twoSecondsLater 7 Duration.Second true
           plainLimiter (<[7 := Some plainStatus]> ∅) plainStatus).
  - discriminate.
  - reflexivity.
  - reflexivity.
  - reflexivity.
  - right. simpl. tauto.
Defined.

Lemma AddCustomIgnore_replaces_witness :
  exists l1 l2 l3 : Limiter unit,
    AddCustomIgnore someInstant 7 0 true runningLimiter = Ok l1 /\
    AddCustomIgnore twoSecondsLater 7 Duration.Second false l1 = Ok l2 /\
    RemoveCustomIgnore 7 l2 = Ok l3 /\
    In 7 (ignoredExceptions l3).
Proof.
  destruct (AddCustomIgnore_replaces someInstant twoSecondsLater 7 0 Duration.Second
              true false runningLimiter ∅)
    as (l1 & l2 & Hadd1 & Hadd2 & _ & _ & Hstays).
  - discriminate.
  - reflexivity.
  - destruct (Hstays eq_refl eq_refl) as (l3 & Hrem & Hin).
    exists l1, l2, l3. auto.
Defined.

(** ** Overrides and eviction over time *)

Lemma Sub_mono (a a' b : Time.t) : a <= a' -> Time.Sub a b <= Time.Sub a' b.
Proof.
  intros Hle. unfold Time.Sub, Duration.minDuration, Duration.maxDuration.
  repeat match goal with
         | |- context [?x <? ?y] => destruct (Z.ltb_spec x y)
         end; lia.
Qed.

Lemma IsCustomLimited_mono (now now' : Time.t) (s : UserStatus) :
  now <= now' ->
  fst (IsCustomLimited now s) = false -> fst (IsCustomLimited now' s) = false.
Proof.
  intros Hle. unfold IsCustomLimited. destruct (custom s) as [c |]; [| reflexivity].
  pose proof (Sub_mono now now' (startTime c) Hle) as Hmono. unfold Time.Since.
  destruct (Z.ltb_spec (duration c) (Time.Sub now (startTime c))); simpl;
    [| discriminate].
  destruct (Z.eqb_spec (duration c) 0); simpl; [discriminate |].
  intros _.
  destruct (Z.ltb_spec (duration c) (Time.Sub now' (startTime c))); [reflexivity | lia].
Qed.

(** X13: once [IsCustomLimited] has answered false the override is gone
    and every later call on the status it left answers false; on the status
    as it was, every call at a later clock reading answers false too; and a
    second call at the same reading changes nothing. *)
Theorem IsCustomLimited_expiry_is_final (now now' : Time.t) (s : UserStatus) :
  (fst (IsCustomLimited now s) = false ->
   custom (snd (IsCustomLimited now s)) = None /\
   fst (IsCustomLimited now' (snd (IsCustomLimited now s))) = false) /\
  (now <= now' -> fst (IsCustomLimited now s) = false ->
   fst (IsCustomLimited now' s) = false) /\
  IsCustomLimited now (snd (IsCustomLimited now s)) = IsCustomLimited now s.
Proof.
  split; [| split].
  - unfold IsCustomLimited. destruct (custom s) as [c |] eqn:Hc.
    + destruct (_ && _); simpl; [auto | discriminate].
    + simpl. rewrite Hc. auto.
  - apply IsCustomLimited_mono.
  - unfold IsCustomLimited. destruct (custom s) as [c |] eqn:Hc.
    + destruct (_ && _) eqn:Hexp; simpl; [reflexivity |].
      rewrite Hc, Hexp. reflexivity.
    + simpl. rewrite Hc. reflexivity.
Qed.

Section EvictionOverTime.

Context {Response : Type}.
Implicit Types (l : Limiter Response) (id : Z) (now : Time.t) (d : Duration.t).

(** X14: a status that is eligible for eviction stays eligible at every
    later clock reading, as long as the status is not written and the
    window is not made longer; the limiter may otherwise change. *)
Theorem canBeDeleted_stays now now' l (l' : Limiter Response) (s : UserStatus) :
  now <= now' -> timeout l' <= timeout l ->
  fst (canBeDeleted now l s) = true -> fst (canBeDeleted now' l' s) = true.
Proof.
  intros Hle Hwin. rewrite !canBeDeleted_iff. unfold evictable, activeOverride.
  intros [Hz | (Hstale & Hlim & Hov)]; [by left | right].
  pose proof (Sub_mono now now' (Last s) Hle) as Hmono. unfold Time.Since in *.
  split; [lia |]. split; [assumption |].
  apply not_true_iff_false. apply (IsCustomLimited_mono now now' s Hle).
  by apply not_true_iff_false.
Qed.

(** X15: the status that [GetStatus] returns after [AddCustomIgnore] at
    [now] with duration [d] is under an active override at a reading [now']
    exactly when [d] is zero or the time elapsed since [now] is at most
    [d]. *)
Theorem AddCustomIgnore_active_interval now now' id d (ie : bool) l
    (m : gmap Z (option UserStatus)) :
  mutex l <> None -> userMap l = Some m ->
  exists (l' : Limiter Response) (st : UserStatus),
    AddCustomIgnore now id d ie l = Ok l' /\
    GetStatus id l' = Ok (Some st) /\
    (fst (IsCustomLimited now' st) = true <->
     d = 0 \/ Time.Since now' now <= d).
Proof.
  intros Hmu Hm.
  destruct (AddCustomIgnore_result now id d ie l m Hmu Hm)
    as (l' & Hadd & Hmu' & Hm' & _).
  eexists l', _. split; [exact Hadd |]. split.
  - unfold GetStatus, RLock, RUnlock, withMutex, lookupStatus at 1.
    rewrite Hmu', Hm'. destruct (mutex l); [| contradiction].
    cbn. rewrite lookup_insert_eq. reflexivity.
  - unfold IsCustomLimited. simpl.
    destruct (Z.ltb_spec d (Time.Since now' now)); simpl.
    + destruct (Z.eqb_spec d 0); simpl; split; auto; try discriminate.
      intros [H0 | H0]; [contradiction | lia].
    + split; auto.
Qed.

End EvictionOverTime.

Lemma IsCustomLimited_expiry_is_final_witness :
  fst (IsCustomLimited (twoSecondsLater + 5) timedStatus) = false /\
  fst (IsCustomLimited someInstant
         (snd (IsCustomLimited twoSecondsLater timedStatus))) = false.
Proof.
  destruct (IsCustomLimited_expiry_is_final twoSecondsLater (twoSecondsLater + 5)
              timedStatus) as (_ & Hlater & _).
  destruct (IsCustomLimited_expiry_is_final twoSecondsLater someInstant
              timedStatus) as (Hgone & _ & _).
  split.
  - apply Hlater; [vm_compute; discriminate | reflexivity].
  - apply Hgone. reflexivity.
Defined.

Lemma canBeDeleted_stays_witness :
  fst (canBeDeleted (someInstant + 60 * Duration.Second)
         (SetFloodWaitTime (Duration.seconds 5) runningLimiter) plainStatus)
    = true.
Proof.
  apply (canBeDeleted_stays (someInstant + 11 * Duration.Second) _ runningLimiter).
  - vm_compute. discriminate.
  - vm_compute. discriminate.
  - reflexivity.
Defined.

(** With a longer window in between, a status that was eligible is not. *)
Example canBeDeleted_longer_window :
  fst (canBeDeleted (someInstant + 11 * Duration.Second) runningLimiter plainStatus)
    = true /\
  fst (canBeDeleted (someInstant + 60 * Duration.Second)
         (SetFloodWaitTime (Duration.seconds 300) runningLimiter) plainStatus)
    = false.
Proof. split; reflexivity. Qed.

Lemma AddCustomIgnore_active_interval_witness :
  exists (l' : Limiter unit) (st : UserStatus),
    AddCustomIgnore someInstant 7 (2 * Duration.Second) false runningLimiter = Ok l' /\
    GetStatus 7 l' = Ok (Some st) /\
    fst (IsCustomLimited twoSecondsLater st) = true.
Proof.
  destruct (AddCustomIgnore_active_interval someInstant twoSecondsLater 7
              (2 * Duration.Second) false runningLimiter ∅)
    as (l' & st & Hadd & Hget & Hactive).
  - discriminate.
  - reflexivity.
  - exists l', st. split; [exact Hadd |]. split; [exact Hget |].
    apply Hactive. right. vm_compute. discriminate.
Defined.

(** ** What an iteration of the checker leaves behind *)

Section CheckerOutcome.

Context {Response : Type}.
Implicit Types (l : Limiter Response) (id : Z) (now : Time.t).

(** Every way an iteration can end, with the limiter it ends on. *)
Lemma checkerIteration_outcome (asleep : Limiter Response -> Limiter Response) now l :
  match checkerIteration asleep now l with
  | Ok (LoopEnded l') => l' = l /\ isEnabled l && negb (isStopped l) = false
  | Ok (Returned slept l') =>
      slept = maxTimeout (checkerInterval l) /\ l' = asleep (checkerInterval l) /\
      (userMap l' = None \/ mutex l' = None)
  | Ok (Continued slept l') =>
      slept = maxTimeout (checkerInterval l) /\
      exists m : gmap Z (option UserStatus),
        userMap (asleep (checkerInterval l)) = Some m /\
        mutex (asleep (checkerInterval l)) <> None /\
        l' = setUserMap
               (Some (omap (sweepEntry (afterSleep now slept)
                              (asleep (checkerInterval l))) m))
               (asleep (checkerInterval l))
  | Panic _ => False
  end.
Proof.
  unfold checkerIteration. cbv zeta.
  destruct (isEnabled l && negb (isStopped l)); [| auto].
  destruct (userMap (asleep (checkerInterval l))) as [m |] eqn:Hm;
    [| rewrite Hm; auto].
  destruct (mutex (asleep (checkerInterval l))) as [mu |] eqn:Hmu;
    [| rewrite Hmu; auto].
  destruct (size m =? 0)%nat eqn:Hsize.
  - split; [reflexivity |]. exists m. split; [reflexivity |]. split; [discriminate |].
    apply Nat.eqb_eq, map_size_empty_iff in Hsize. subst m.
    rewrite omap_empty, <- Hm. by destruct (asleep (checkerInterval l)).
  - unfold Lock, Unlock, withMutex. cbn. rewrite ?Hmu. cbn.
    split; [reflexivity |]. exists m. split; [reflexivity |]. split; [discriminate |].
    reflexivity.
Qed.

(** X16: an iteration of the checker that goes on to the next one has only
    deleted entries: every status in the map afterwards was there before,
    unchanged, and was not eligible for eviction; every status that was not
    eligible is still there; the lock, the flags and the configuration are
    untouched. *)
Theorem checkerIteration_only_deletes
    (asleep : Limiter Response -> Limiter Response) now l
    (slept : Duration.t) (l' : Limiter Response) :
  checkerIteration asleep now l = Ok (Continued slept l') ->
  (forall id (s : UserStatus),
     lookupStatus id l' = Some s <->
     lookupStatus id (asleep (checkerInterval l)) = Some s /\
     fst (canBeDeleted (afterSleep now slept) (asleep (checkerInterval l)) s) = false) /\
  mutex l' = mutex (asleep (checkerInterval l)) /\
  isEnabled l' = isEnabled (asleep (checkerInterval l)) /\
  isStopped l' = isStopped (asleep (checkerInterval l)) /\
  sameConfig (asleep (checkerInterval l)) l'.
Proof.
  intros Hrun. pose proof (checkerIteration_outcome asleep now l) as Hout.
  rewrite Hrun in Hout. destruct Hout as (-> & m & Hm & _ & ->).
  split; [| unfold sameConfig; simpl; repeat split].
  intros id s. unfold lookupStatus. simpl. rewrite Hm, sweep_lookup.
  destruct (m !! id) as [[s0 |] |]; try (split; [discriminate | intros [H _]; discriminate]).
  destruct (fst (canBeDeleted _ _ s0)) eqn:Hd.
  - split; [discriminate |]. intros [Heq Hkeep]. congruence.
  - split.
    + intros Heq. injection Heq as <-. auto.
    + intros [Heq _]. exact Heq.
Qed.

(** X17: whenever [punishment + timeout + 1 minute] does not overflow, the
    interval that [SetMaxCacheDuration] and [SetDefaultInterval] store is
    strictly greater than [punishment + timeout]; when these two are not
    negative, [SetDefaultInterval] stores at least one minute. *)
Theorem cache_interval_exceeds_window l (d : Duration.t) :
  Duration.inRange (punishment l + timeout l) ->
  Duration.inRange (punishment l + timeout l + Duration.Minute) ->
  punishment l + timeout l < maxTimeout (SetMaxCacheDuration d l) /\
  punishment l + timeout l < maxTimeout (SetDefaultInterval l) /\
  (0 <= punishment l -> 0 <= timeout l ->
   Duration.Minute <= maxTimeout (SetDefaultInterval l)).
Proof.
  intros H1 H2.
  assert (Hmin : 0 < Duration.Minute) by reflexivity.
  rewrite (SetMaxCacheDuration_exact l d H1 H2), SetDefaultInterval_maxTimeout.
  rewrite (add_small _ _ H1), (add_small _ _ H2).
  split; [destruct (Z.ltb_spec (punishment l + timeout l) d); lia |].
  split; lia.
Qed.

(** The interval slept is at least a second under a sane configuration. *)
Lemma checkerInterval_at_least_a_second l :
  0 <= punishment l -> 0 <= timeout l ->
  Duration.inRange (punishment l + timeout l + Duration.Minute) ->
  Duration.Second <= maxTimeout (checkerInterval l).
Proof.
  intros Hp Ht Hrange. rewrite checkerInterval_maxTimeout.
  destruct (Z.ltb_spec (maxTimeout l) Duration.Second); [| assumption].
  assert (Hrange' : Duration.inRange (punishment l + timeout l)).
  { revert Hrange. unfold Duration.inRange, Duration.minDuration,
      Duration.maxDuration. change Duration.Minute with 60000000000. lia. }
  rewrite (add_small _ _ Hrange'), (add_small _ _ Hrange).
  change Duration.Minute with 60000000000. change Duration.Second with 1000000000.
  lia.
Qed.

(** X18: when other goroutines write the limiter only while the checker
    is asleep, and none of them changes the punishment or the window, which
    are not negative and do not overflow, the checker loop runs without a
    fault and every interval it sleeps for is at least one second, whatever
    those writes do to the interval, the map or the lock. *)
Theorem checker_never_spins (asleep : list (Limiter Response -> Limiter Response))
    now l (p t : Duration.t) :
  0 <= p -> 0 <= t -> Duration.inRange (p + t + Duration.Minute) ->
  punishment l = p -> timeout l = t ->
  Forall (fun env => forall x : Limiter Response,
            punishment (env x) = punishment x /\ timeout (env x) = timeout x)
         asleep ->
  exists (trace : list Duration.t) (l' : Limiter Response),
    checker asleep now l = Ok (trace, l') /\
    Forall (fun slept => Duration.Second <= slept) trace.
Proof.
  intros Hp Ht Hrange. revert now l.
  induction asleep as [| env rest IH]; intros now l Hpl Htl Henv; simpl.
  { exists [], l. split; [reflexivity | constructor]. }
  apply Forall_cons in Henv as [Hhead Hrest].
  pose proof (checkerIteration_outcome env now l) as Hout.
  assert (Hslept : Duration.Second <= maxTimeout (checkerInterval l)).
  { apply checkerInterval_at_least_a_second; rewrite ?Hpl, ?Htl; assumption. }
  destruct (checkerInterval_flags l) as (_ & _ & _ & _ & Hp' & Ht').
  destruct (checkerIteration env now l) as [[l1 | slept l1 | slept l1] | e];
    cbn; [| | | contradiction].
  - exists [], l1. split; [reflexivity | constructor].
  - destruct Hout as (-> & _). exists [maxTimeout (checkerInterval l)], l1.
    split; [reflexivity |]. repeat constructor. exact Hslept.
  - destruct Hout as (-> & m & _ & _ & ->).
    destruct (Hhead (checkerInterval l)) as [Hp2 Ht2].
    destruct (IH (afterSleep now (maxTimeout (checkerInterval l)))
                (setUserMap
                   (Some (omap (sweepEntry (afterSleep now (maxTimeout (checkerInterval l)))
                                  (env (checkerInterval l))) m))
                   (env (checkerInterval l))))
      as (trace & l' & Hrun & Hall).
    + simpl. congruence.
    + simpl. congruence.
    + exact Hrest.
    + rewrite Hrun. cbn. eexists _, _. split; [reflexivity |].
      constructor; assumption.
Qed.

End CheckerOutcome.

Lemma checkerIteration_only_deletes_witness :
  exists l' : Limiter unit,
    checkerIteration (fun l => l) someInstant mixedLimiter
      = Ok (Continued (Duration.seconds 100) l') /\
    lookupStatus 7 l' = Some limitedSeen /\
    lookupStatus 9 l' <> Some plainStatus.
Proof.
  assert (Hrun : checkerIteration (fun l => l) someInstant mixedLimiter =
                 Ok (Continued (Duration.seconds 100)
                       (setUserMap (Some (<[7 := Some limitedSeen]> ∅))
                          (SetDefaultInterval mixedLimiter))))
    by (vm_compute; reflexivity).
  destruct (checkerIteration_only_deletes _ _ _ _ _ Hrun) as (Hiff & _).
  eexists. split; [exact Hrun |]. split.
  - apply Hiff. split; vm_compute; reflexivity.
  - intros Hkept. apply Hiff in Hkept as [_ Hfresh]. vm_compute in Hfresh.
    discriminate.
Defined.

Lemma cache_interval_exceeds_window_witness :
  punishment runningLimiter + timeout runningLimiter
    < maxTimeout (SetMaxCacheDuration (Duration.seconds 5) runningLimiter) /\
  Duration.Minute <= maxTimeout (SetDefaultInterval runningLimiter).
Proof.
  destruct (cache_interval_exceeds_window runningLimiter (Duration.seconds 5))
    as (Hset & _ & Hdefault).
  - vm_compute. split; discriminate.
  - vm_compute. split; discriminate.
  - split; [exact Hset | apply Hdefault; vm_compute; discriminate].
Defined.

Lemma checker_never_spins_witness :
  exists (trace : list Duration.t) (l' : Limiter unit),
    checker [fun l => l; Stop] someInstant runningLimiter = Ok (trace, l') /\
    Forall (fun slept => Duration.Second <= slept) trace.
Proof.
  apply (checker_never_spins [fun l => l; Stop] someInstant runningLimiter
           (Duration.seconds 30) (Duration.seconds 10)).
  - vm_compute. discriminate.
  - vm_compute. discriminate.
  - vm_compute. split; discriminate.
  - reflexivity.
  - reflexivity.
  - repeat constructor.
    + destruct (Stop_sameConfig x) as (_ & H & _). exact H.
    + destruct (Stop_sameConfig x) as (H & _). exact H.
Defined.

(** ** Invariants over runs of calls *)

Section Runs.

Context {Response : Type}.
Implicit Types (l : Limiter Response) (c : @Call Response).

(** A call that returns leaves the lock as it found it, unless it is
    [Start] or [Stop]. *)
Lemma RemoveCustomIgnore_registry id l (l' : Limiter Response) :
  RemoveCustomIgnore id l = Ok l' ->
  mutex l' = mutex l /\ mutex l <> None /\ isEnabled l' = isEnabled l /\
  (userMap l <> None -> userMap l' <> None) /\
  (ignoredExceptions l' = ignoredExceptions l \/
   ignoredExceptions l' = ignoredExceptions (removeFromIgnoredExceptions id l)).
Proof.
  intros Hrun.
  assert (Hmu : mutex l <> None).
  { intros Hnil. unfold RemoveCustomIgnore, Lock, withMutex in Hrun.
    rewrite Hnil in Hrun. discriminate. }
  destruct (lookupStatus id l) as [s |] eqn:Hs.
  2: { rewrite RemoveCustomIgnore_noop in Hrun by auto.
       injection Hrun as <-. repeat split; auto. }
  destruct (custom s) as [c |] eqn:Hc.
  2: { rewrite RemoveCustomIgnore_noop in Hrun by eauto.
       injection Hrun as <-. repeat split; auto. }
  assert (Hm : exists m, userMap l = Some m).
  { unfold lookupStatus in Hs. destruct (userMap l); [eauto | discriminate]. }
  destruct Hm as [m Hm].
  rewrite (RemoveCustomIgnore_live id l m s c Hmu Hm Hs Hc) in Hrun.
  injection Hrun as <-. simpl.
  destruct (ignoreException c).
  - destruct (ignored_ops_frame l id) as (_ & (-> & _)).
    assert (Hon : isEnabled (removeFromIgnoredExceptions id l) = isEnabled l).
    { unfold removeFromIgnoredExceptions.
      destruct (_ =? _)%nat; [reflexivity |]. destruct (firstIndex _ _); reflexivity. }
    split; [reflexivity |]. split; [assumption |]. split; [exact Hon |].
    split; [discriminate | by right].
  - split; [reflexivity |]. split; [assumption |].
    split; [reflexivity |]. split; [discriminate | by left].
Qed.

Lemma runCall_lifecycle c l (l' : Limiter Response) :
  lifecycleInvariant l -> runCall c l = Ok l' -> lifecycleInvariant l'.
Proof.
  unfold lifecycleInvariant. intros [Hen Hnil] Hrun.
  destruct c; simpl in Hrun;
    try (injection Hrun as <-; simpl; split; assumption).
  - (* Start *)
    injection Hrun as <-. destruct (isEnabled l) eqn:Hon.
    + unfold Start. rewrite Hon. simpl. rewrite Hon. split; assumption.
    + destruct (Start_registry l Hon) as [-> ->]. split; [split |]; discriminate.
  - (* Stop *)
    injection Hrun as <-. destruct (isStopped l) eqn:Hs.
    + rewrite (Stop_stopped l Hs). split; assumption.
    + rewrite (Stop_disables l Hs). split; [discriminate |].
      intros _. unfold Stop. rewrite Hs. simpl.
      destruct (mutex l) eqn:Hmu; simpl; auto.
  - (* SetMaxCacheDuration *)
    injection Hrun as <-. unfold SetMaxCacheDuration.
    destruct (_ <? _); simpl; split; assumption.
  - (* AddCustomIgnore *)
    destruct (registryInvariant_AddCustomIgnore _ _ _ _ _ _ Hrun) as [Hinv Hmu].
    assert (Hm : userMap l' <> None).
    { unfold AddCustomIgnore, Lock, withMutex in Hrun.
      destruct (mutex l) eqn:Hmul; [| discriminate].
      destruct (userMap l) as [m |] eqn:Hml.
      - pose proof (AddCustomIgnore_result now id d ignoreExceptions l m
                      ltac:(by rewrite Hmul) Hml) as (l1 & Hadd & _ & Hm1 & _).
        unfold AddCustomIgnore, Lock, withMutex in Hadd. rewrite Hmul in Hadd.
        rewrite Hadd in Hrun. injection Hrun as <-. rewrite Hm1. discriminate.
      - unfold lookupStatus, storeStatus in Hrun. rewrite Hml in Hrun.
        cbn in Hrun. discriminate. }
    split; [auto | intros Hnone; contradiction].
  - (* RemoveCustomIgnore *)
    destruct (RemoveCustomIgnore_registry _ _ _ Hrun) as (Hmu & Hlive & Hon & Hm & _).
    rewrite Hmu, Hon. split.
    + intros Htrue. split; [exact Hlive | apply Hm, (Hen Htrue)].
    + intros Hnone. contradiction.
  - (* one iteration of the checker *)
    pose proof (checkerIteration_outcome (fun x => x) now l) as Hout.
    destruct (checkerInterval_flags l) as (Hf1 & _ & Hf3 & Hf4 & _).
    destruct (checkerIteration (fun x => x) now l) as [[l1 | slept l1 | slept l1] | e];
      cbn in Hrun; try discriminate; injection Hrun as <-.
    + destruct Hout as (-> & _). split; assumption.
    + destruct Hout as (_ & -> & _). rewrite Hf1, Hf3, Hf4. split; assumption.
    + destruct Hout as (_ & m & _ & Hmu & ->). simpl. rewrite Hf1.
      split; [intros _; split; [exact Hmu | discriminate] |].
      intros Hnone. contradiction.
Qed.

(** X19: every run of calls that starts from a limiter whose lock and map
    are allocated together, and are allocated when it is enabled, ends on
    such a limiter; so while the limiter is enabled, [GetStatus],
    [AddCustomIgnore] and [RemoveCustomIgnore] return without a fault. *)
Theorem enabled_registry_never_faults (cs : list (@Call Response)) l
    (l' : Limiter Response) :
  lifecycleInvariant l -> runCalls cs l = Ok l' ->
  lifecycleInvariant l' /\
  (isEnabled l' = true ->
   forall (id : Z) (now : Time.t) (d : Duration.t) (ie : bool),
     returnsQuietly (GetStatus id l') /\
     returnsQuietly (AddCustomIgnore now id d ie l') /\
     returnsQuietly (RemoveCustomIgnore id l')).
Proof.
  intros Hinv Hrun.
  assert (Hinv' : lifecycleInvariant l').
  { revert l Hinv Hrun. induction cs as [| c rest IH]; intros l Hinv Hrun; simpl in Hrun.
    - by injection Hrun as <-.
    - destruct (runCall c l) as [l1 | e] eqn:Hc; cbn in Hrun; [| discriminate].
      exact (IH l1 (runCall_lifecycle c l l1 Hinv Hc) Hrun). }
  split; [exact Hinv' |].
  intros Hon id now d ie. destruct Hinv' as [Hen _].
  destruct (Hen Hon) as [Hmu Hm].
  destruct (userMap l') as [m |] eqn:Hmap; [| contradiction].
  split; [| split].
  - unfold GetStatus, RLock, RUnlock, withMutex.
    destruct (mutex l'); [exact I | contradiction].
  - destruct (AddCustomIgnore_result now id d ie l' m Hmu Hmap) as (l1 & -> & _).
    exact I.
  - destruct (lookupStatus id l') as [s |] eqn:Hs;
      [| rewrite RemoveCustomIgnore_noop by auto; exact I].
    destruct (custom s) as [c |] eqn:Hc;
      [| rewrite RemoveCustomIgnore_noop by eauto; exact I].
    rewrite (RemoveCustomIgnore_live id l' m s c Hmu Hmap Hs Hc). exact I.
Qed.

Lemma runCall_ignored_NoDup c l (l' : Limiter Response) :
  NoDup (ignoredExceptions l) -> runCall c l = Ok l' ->
  NoDup (ignoredExceptions l').
Proof.
  intros Hnd Hrun.
  destruct c; simpl in Hrun;
    try (injection Hrun as <-; simpl; assumption).
  - injection Hrun as <-. by destruct (Start_sameConfig l) as (_ & _ & _ & _ & _ & _ & _ & -> & _).
  - injection Hrun as <-. by destruct (Stop_sameConfig l) as (_ & _ & _ & _ & _ & _ & _ & -> & _).
  - injection Hrun as <-. unfold SetMaxCacheDuration. destruct (_ <? _); assumption.
  - unfold AddCustomIgnore, Lock, withMutex in Hrun.
    destruct (mutex l) eqn:Hmul; [| discriminate].
    destruct (userMap l) as [m |] eqn:Hml.
    + pose proof (AddCustomIgnore_result now id d ignoreExceptions l m
                    ltac:(by rewrite Hmul) Hml) as (l1 & Hadd & _ & _ & Hign & _).
      unfold AddCustomIgnore, Lock, withMutex in Hadd. rewrite Hmul in Hadd.
      rewrite Hadd in Hrun. injection Hrun as <-. rewrite Hign.
      destruct ignoreExceptions; [by apply addIgnoredExceptions_NoDup | assumption].
    + unfold lookupStatus, storeStatus in Hrun. rewrite Hml in Hrun.
      cbn in Hrun. discriminate.
  - destruct (RemoveCustomIgnore_registry _ _ _ Hrun) as (_ & _ & _ & _ & [-> | ->]);
      [assumption | by apply removeFromIgnoredExceptions_NoDup].
  - pose proof (checkerIteration_outcome (fun x => x) now l) as Hout.
    assert (Hkeep : ignoredExceptions (checkerInterval l) = ignoredExceptions l)
      by (unfold checkerInterval; destruct (_ <? _); reflexivity).
    destruct (checkerIteration (fun x => x) now l) as [[l1 | slept l1 | slept l1] | e];
      cbn in Hrun; try discriminate; injection Hrun as <-.
    + by destruct Hout as (-> & _).
    + destruct Hout as (_ & -> & _). by rewrite Hkeep.
    + destruct Hout as (_ & m & _ & _ & ->). simpl. by rewrite Hkeep.
Qed.

(** X20: no run of calls puts a duplicate into the ignored-exceptions
    list: the methods write the list only through [AddCustomIgnore] and
    [RemoveCustomIgnore]. *)
Theorem ignoredExceptions_NoDup_over_runs (cs : list (@Call Response)) l
    (l' : Limiter Response) :
  NoDup (ignoredExceptions l) -> runCalls cs l = Ok l' ->
  NoDup (ignoredExceptions l').
Proof.
  revert l. induction cs as [| c rest IH]; intros l Hnd Hrun; simpl in Hrun.
  - by injection Hrun as <-.
  - destruct (runCall c l) as [l1 | e] eqn:Hc; cbn in Hrun; [| discriminate].
    exact (IH l1 (runCall_ignored_NoDup c l l1 Hnd Hc) Hrun).
Qed.

End Runs.

Lemma zeroLimiter_lifecycle : lifecycleInvariant zeroLimiter.
Proof. split; [discriminate | reflexivity]. Defined.

Lemma enabled_registry_never_faults_witness :
  exists l' : Limiter unit,
    runCalls sampleRun zeroLimiter = Ok l' /\
    returnsQuietly (GetStatus 7 l') /\
    returnsQuietly (AddCustomIgnore twoSecondsLater 8 Duration.Second false l') /\
    returnsQuietly (RemoveCustomIgnore 7 l').
Proof.
  destruct (runCalls sampleRun zeroLimiter) as [l' | e] eqn:Hrun.
  - exists l'. split; [reflexivity |].
    destruct (enabled_registry_never_faults sampleRun zeroLimiter l'
                zeroLimiter_lifecycle Hrun) as [_ Hquiet].
    assert (Hon : isEnabled l' = true)
      by (vm_compute in Hrun; injection Hrun as <-; reflexivity).
    destruct (Hquiet Hon 7 twoSecondsLater Duration.Second false) as (Hget & _ & Hrem).
    destruct (Hquiet Hon 8 twoSecondsLater Duration.Second false) as (_ & Hadd & _).
    auto.
  - vm_compute in Hrun. discriminate.
Defined.

Lemma ignoredExceptions_NoDup_over_runs_witness :
  exists l' : Limiter unit,
    runCalls sampleRun zeroLimiter = Ok l' /\ NoDup (ignoredExceptions l').
Proof.
  destruct (runCalls sampleRun zeroLimiter) as [l' | e] eqn:Hrun.
  - exists l'. split; [reflexivity |].
    apply (ignoredExceptions_NoDup_over_runs sampleRun zeroLimiter l');
      [apply NoDup_nil_2 | exact Hrun].
  - vm_compute in Hrun. discriminate.
Defined.

(** ** Faults of the registry methods *)

Section Faults.

Context {Response : Type}.
Implicit Types (l : Limiter Response) (id : Z) (now : Time.t) (d : Duration.t).

(** X21: [AddCustomIgnore] returns normally exactly when both the lock and
    the map are allocated: it dereferences nil on a nil lock and assigns
    into a nil map when only the map is nil.  [GetStatus] faults on a nil
    lock only, and returns nil for a nil map or a key that has no status. *)
Theorem registry_faults now id d (ie : bool) l :
  (mutex l = None ->
   AddCustomIgnore now id d ie l = Panic NilPointerDereference /\
   GetStatus id l = Panic NilPointerDereference) /\
  (mutex l <> None -> userMap l = None ->
   AddCustomIgnore now id d ie l = Panic AssignmentToNilMap /\
   GetStatus id l = Ok None) /\
  (mutex l <> None -> userMap l <> None ->
   returnsQuietly (AddCustomIgnore now id d ie l) /\
   GetStatus id l = Ok (lookupStatus id l)) /\
  (mutex l <> None ->
   forall m : gmap Z (option UserStatus),
     userMap l = Some m -> m !! id = None \/ m !! id = Some None ->
     GetStatus id l = Ok None).
Proof.
  unfold GetStatus, RLock, RUnlock, AddCustomIgnore, Lock, Unlock, withMutex.
  split; [intros ->; auto |].
  destruct (mutex l) as [mu |] eqn:Hmu; cbn.
  2: { split; [intros H; contradiction |]. split; intros H; contradiction. }
  split; [| split].
  - intros _ Hnil. unfold lookupStatus, storeStatus. rewrite Hnil. auto.
  - intros _ Hlive. destruct (userMap l) as [m |] eqn:Hm; [| contradiction].
    split; [| reflexivity].
    pose proof (AddCustomIgnore_live now id d ie l m ltac:(by rewrite Hmu) Hm) as Hadd.
    unfold AddCustomIgnore, Lock, Unlock, withMutex in Hadd. rewrite Hmu in Hadd.
    cbn in Hadd. rewrite Hadd. exact I.
  - intros _ m Hm Hid. unfold lookupStatus. rewrite Hm.
    destruct Hid as [-> | ->]; reflexivity.
Qed.

(** X22: the map after an iteration of the checker that goes on is a
    sub-map of the map before it, holds no nil entry, and is no larger. *)
Theorem checkerIteration_shrinks
    (asleep : Limiter Response -> Limiter Response) now l
    (slept : Duration.t) (l' : Limiter Response) :
  checkerIteration asleep now l = Ok (Continued slept l') ->
  exists m m' : gmap Z (option UserStatus),
    userMap (asleep (checkerInterval l)) = Some m /\
    userMap l' = Some m' /\
    m' ⊆ m /\
    (forall id, m' !! id <> Some None) /\
    (size m' <= size m)%nat.
Proof.
  intros Hrun. pose proof (checkerIteration_outcome asleep now l) as Hout.
  rewrite Hrun in Hout. destruct Hout as (-> & m & Hm & _ & ->).
  exists m, (omap (sweepEntry (afterSleep now (maxTimeout (checkerInterval l)))
                     (asleep (checkerInterval l))) m).
  assert (Hsub : omap (sweepEntry (afterSleep now (maxTimeout (checkerInterval l)))
                         (asleep (checkerInterval l))) m ⊆ m).
  { apply map_subseteq_spec. intros id v. rewrite sweep_lookup.
    destruct (m !! id) as [[s |] |]; try discriminate.
    destruct (fst (canBeDeleted _ _ s)); [discriminate | auto]. }
  split; [exact Hm |]. split; [reflexivity |]. split; [exact Hsub |]. split.
  - intros id. rewrite sweep_lookup.
    destruct (m !! id) as [[s |] |]; try discriminate.
    destruct (fst (canBeDeleted _ _ s)); discriminate.
  - by apply map_subseteq_size.
Qed.

End Faults.

Lemma registry_faults_witness :
  AddCustomIgnore someInstant 7 0 false (Stop runningLimiter)
    = Panic NilPointerDereference /\
  AddCustomIgnore someInstant 7 0 false lockOnly = Panic AssignmentToNilMap /\
  GetStatus 7 lockOnly = Ok None /\
  GetStatus 8 populatedLimiter = Ok None /\
  GetStatus 7 populatedLimiter = Ok (Some timedStatus).
Proof.
  destruct (registry_faults someInstant 7 0 false (Stop runningLimiter)) as (Hnil & _).
  destruct (registry_faults someInstant 7 0 false lockOnly) as (_ & Hmap & _).
  destruct (registry_faults someInstant 8 0 false populatedLimiter) as (_ & _ & _ & Hkey).
  destruct (registry_faults someInstant 7 0 false populatedLimiter) as (_ & _ & Hlive & _).
  split; [apply Hnil; reflexivity |].
  split; [apply Hmap; [discriminate | reflexivity] |].
  split; [apply Hmap; [discriminate | reflexivity] |].
  split; [apply (Hkey ltac:(discriminate) _ eq_refl); right; reflexivity |].
  apply Hlive; discriminate.
Defined.

Lemma checkerIteration_shrinks_witness :
  exists m m' : gmap Z (option UserStatus),
    userMap mixedLimiter = Some m /\
    size m = 3%nat /\ (size m' <= size m)%nat /\ m' !! 8 <> Some None.
Proof.
  assert (Hrun : checkerIteration (fun l => l) someInstant mixedLimiter =
                 Ok (Continued (Duration.seconds 100)
                       (setUserMap (Some (<[7 := Some limitedSeen]> ∅))
                          (SetDefaultInterval mixedLimiter))))
    by (vm_compute; reflexivity).
  destruct (checkerIteration_shrinks _ _ _ _ _ Hrun)
    as (m & m' & Hm & _ & _ & Hnil & Hsize).
  exists m, m'. split; [exact Hm |].
  split; [injection Hm as <-; vm_compute; reflexivity |].
  split; [exact Hsize | apply Hnil].
Defined.

(** ** Overrides that ignore exceptions *)

Section IgnoringExceptions.

Context {Response : Type}.
Implicit Types (l : Limiter Response) (id : Z) (now : Time.t) (d : Duration.t).

(** X23: after [AddCustomIgnore] with [ignoreExceptions] set,
    [isIgnoredException] holds for every message whose chat or sender is
    [id], and [isIgnoredExceptionQuery] for every callback query whose
    sender, or whose message's chat, is [id]; without the flag the answers
    of both are the ones before the call. *)
Theorem AddCustomIgnore_ignores_exceptions now id d l
    (m : gmap Z (option UserStatus)) :
  mutex l <> None -> userMap l = Some m ->
  (exists l' : Limiter Response,
     AddCustomIgnore now id d true l = Ok l' /\
     (forall msg : Message.t,
        messageListed [id] msg ->
        exists r : Scan, isIgnoredException (Some msg) l' = Ok r /\ fst r = true) /\
     (forall q : CallbackQuery.t,
        queryListed [id] q ->
        exists r : Scan, isIgnoredExceptionQuery (Some q) l' = Ok r /\ fst r = true)) /\
  (exists l' : Limiter Response,
     AddCustomIgnore now id d false l = Ok l' /\
     (forall msg : option Message.t,
        isIgnoredException msg l' = isIgnoredException msg l) /\
     (forall q : option CallbackQuery.t,
        isIgnoredExceptionQuery q l' = isIgnoredExceptionQuery q l)).
Proof.
  intros Hmu Hm. split.
  - destruct (AddCustomIgnore_result now id d true l m Hmu Hm)
      as (l' & Hadd & _ & _ & Hign & _).
    assert (Hin : In id (ignoredExceptions l'))
      by (rewrite Hign; apply addIgnoredExceptions_In).
    assert (Hlen : (length (ignoredExceptions l') =? 0)%nat = false)
      by (destruct (ignoredExceptions l'); [contradiction | reflexivity]).
    exists l'. split; [exact Hadd |]. split.
    + intros msg Hlisted. unfold isIgnoredException. rewrite Hlen.
      eexists. split; [reflexivity |]. apply matchesMessage_listed.
      destruct Hlisted as [[Heq | []] | (u & Hu & [Heq | []])];
        [left | right; exists u; split; [exact Hu |]]; by rewrite <- Heq.
    + intros q Hlisted. unfold isIgnoredExceptionQuery. rewrite Hlen.
      eexists. split; [reflexivity |]. apply matchesQuery_listed.
      destruct Hlisted as [[Heq | []] | (msg & Hq & [Heq | []])];
        [left | right; exists msg; split; [exact Hq |]]; by rewrite <- Heq.
  - destruct (AddCustomIgnore_result now id d false l m Hmu Hm)
      as (l' & Hadd & _ & _ & Hign & _).
    exists l'. split; [exact Hadd |].
    unfold isIgnoredException, isIgnoredExceptionQuery. rewrite Hign. auto.
Qed.

End IgnoringExceptions.

Lemma AddCustomIgnore_ignores_exceptions_witness :
  exists (l' : Limiter unit) (r : Scan),
    AddCustomIgnore someInstant 7 0 true runningLimiter = Ok l' /\
    isIgnoredException (Some messageFromSeven) l' = Ok r /\ fst r = true.
Proof.
  destruct (AddCustomIgnore_ignores_exceptions someInstant 7 0 runningLimiter ∅)
    as ((l' & Hadd & Hmsg & _) & _).
  - discriminate.
  - reflexivity.
  - destruct (Hmsg messageFromSeven) as (r & Hr & Htrue).
    + right. exists (User.mk 7). simpl. auto.
    + exists l', r. auto.
Defined.
